(** * django-unicorn: the message view (django_unicorn/views.py)

    A shallow embedding of the request-coordination and mutation-dispatch
    engine of [views.py]: the property path engine
    ([_set_property_value], [_get_property_value]), the action dispatcher
    ([_process_component_request]) and the request coordinator
    ([_handle_component_request], [_handle_component_requests]).

    Python objects are modelled as trees: a structured node is a table of
    named data attributes, a [dict] is a string-keyed table, everything else
    is a leaf.  [hasattr]/[getattr] are lookups in the attribute table of a
    node; method names of builtin types are not data attributes and are not
    part of the model.  Exceptions are the [Raise] branch of [result]. *)

From stdpp Require Import gmap strings list fin_maps pretty.
From Stdlib Require Import ZArith Ascii String.

#[local] Set Warnings "-register-all".

(** ** Values and exceptions *)

Inductive value :=
| VNone
| VBool (b : bool)
| VInt (n : Z)
| VStr (s : string)
| VList (l : list value)
| VDict (d : gmap string value)            (* a Python dict / JSON object *)
| VObj (a : gmap string value)             (* UnicornField, Model instance, component *)
| VClass (name : string) (is_model : bool). (* a class object; [is_model]: subclass of Model *)

Inductive exn :=
| AssertionError (msg : string)
| UnicornViewError (msg : string)
| KeyError (key : string)
| AttributeError (msg : string)
| TypeError (msg : string)
| IndexError (msg : string)
| MethodError (msg : string)    (* raised by user code or a collaborator *)
| RecursionError.               (* the interpreter's recursion limit *)

Inductive result (A : Type) :=
| Ok (a : A)
| Raise (e : exn).
Arguments Ok {A} a.
Arguments Raise {A} e.

Definition bind {A B} (r : result A) (k : A -> result B) : result B :=
  match r with
  | Ok a => k a
  | Raise e => Raise e
  end.

Notation "'let*' p ':=' c1 'in' c2" := (bind c1 (fun p => c2))
  (at level 10, p pattern, c1 at level 100, c2 at level 200).

(** A live component is the table of its data attributes; [errors] and
    [parent] are attributes like any other. *)
Abbreviation component := (gmap string value).

(** An invocation of a lifecycle hook or of a user method, in call order. *)
Inductive event :=
| Hook (name : string) (args : list value).

(** Python truthiness. *)
Definition truthy (v : value) : bool :=
  match v with
  | VNone => false
  | VBool b => b
  | VInt n => negb (n =? 0)%Z
  | VStr s => negb (String.eqb s "")
  | VList l => match l with [] => false | _ => true end
  | VDict d => negb (bool_decide (d = ∅))
  | VObj _ => true
  | VClass _ _ => true
  end.

(** Python [==] on values.  Objects compare by their attribute tables (the
    JSON snapshots this is used on hold no objects). *)
Fixpoint py_eq (x y : value) {struct x} : bool :=
  match x, y with
  | VNone, VNone => true
  | VBool a, VBool b => bool_decide (a = b)
  | VInt a, VInt b => bool_decide (a = b)
  | VBool a, VInt b => bool_decide (Z.b2z a = b)
  | VInt a, VBool b => bool_decide (a = Z.b2z b)
  | VStr a, VStr b => bool_decide (a = b)
  | VList a, VList b =>
      (fix go (a b : list value) : bool :=
         match a, b with
         | [], [] => true
         | x :: a, y :: b => py_eq x y && go a b
         | _, _ => false
         end) a b
  | VDict a, VDict b =>
      bool_decide (dom a = dom b) &&
      map_fold (fun k x acc =>
                  match b !! k with Some y => py_eq x y && acc | None => false end)
               true a
  | VObj a, VObj b =>
      bool_decide (dom a = dom b) &&
      map_fold (fun k x acc =>
                  match b !! k with Some y => py_eq x y && acc | None => false end)
               true a
  | VClass a _, VClass b _ => bool_decide (a = b)
  | _, _ => false
  end.

(** [str(v)] as used in the f-strings of the view: exact on [None],
    booleans, integers and strings; containers, objects and classes are
    printed schematically. *)
Definition py_str (v : value) : string :=
  match v with
  | VNone => "None"
  | VBool true => "True"
  | VBool false => "False"
  | VInt n => pretty n
  | VStr s => s
  | VList _ => "[...]"
  | VDict _ => "{...}"
  | VObj _ => "<object>"
  | VClass n _ => "<class '" +:+ n +:+ "'>"
  end.

(** ** Strings: [str.split(".")], [str.replace(".", "_")], ["=" in s] *)

Definition dot : ascii := "."%char.

Fixpoint split_dots (s : string) : list string :=
  match s with
  | EmptyString => [EmptyString]
  | String c rest =>
      if Ascii.eqb c dot then EmptyString :: split_dots rest
      else match split_dots rest with
           | [] => [String c EmptyString]
           | h :: t => String c h :: t
           end
  end.

Fixpoint snake_case (s : string) : string :=
  match s with
  | EmptyString => EmptyString
  | String c rest =>
      String (if Ascii.eqb c dot then "_"%char else c) (snake_case rest)
  end.

Fixpoint contains_eq (s : string) : bool :=
  match s with
  | EmptyString => false
  | String c rest => Ascii.eqb c "="%char || contains_eq rest
  end.

(** ** Collaborators

    Code of the repository that [views.py] calls and that lives in other
    modules (components.py, call_method_parser.py, message.py) or in user
    component classes. *)

Record Return := {
  r_method_name : string;
  r_params : list value;
  r_value : value;
  r_redirect : value;
  r_poll : value;
}.

Record collaborators := {
  (* UnicornView.create(component_id, component_name, use_cache, request) *)
  create : string -> string -> bool -> component;
  (* the type coercion done by the component's form in [_set_property] *)
  clean : string -> value -> value;
  (* methods defined on the component class, hooks included *)
  method : string -> option (list value -> component -> result (component * value));
  (* call_method_parser.parse_call_method_name *)
  parse_call_method_name : string -> result (string * list value);
  (* call_method_parser.parse_kwarg(.., raise_if_unparseable=True);
     [None] when InvalidKwarg is raised or nothing is parsed *)
  parse_kwarg : string -> option (string * value);
  (* component.validate(model_names=...) *)
  validate : option (list string) -> component -> component;
  (* component.render() *)
  render : component -> string;
  (* orjson.loads(component.get_frontend_context_variables()) *)
  frontend_context : component -> gmap string value;
  (* the redirect and poll descriptors Return.value's setter derives *)
  redirect_of : value -> value;
  poll_of : value -> value;
  (* Return.get_data() *)
  get_data : Return -> value;
  (* first unicorn:checksum attribute in rendered markup, None if none *)
  find_checksum : string -> value;
}.

(** ** 4.1 Property path engine *)

(** [hasattr(node, name)] / [getattr(node, name)] on data attributes. *)
Definition node_attr (node : value) (name : string) : option value :=
  match node with
  | VObj a => a !! name
  | _ => None
  end.

Definition is_dict (node : value) : bool :=
  match node with VDict _ => true | _ => false end.

(** [setattr(node, name, v)] on a node known to expose [name]. *)
Definition node_setattr (node : value) (name : string) (v : value) : value :=
  match node with
  | VObj a => VObj (<[name := v]> a)
  | _ => node
  end.

(** [d.get(key, {})] on the shadow data. *)
Definition shadow_get (shadow : value) (key : string) : result value :=
  match shadow with
  | VDict d => Ok (default (VDict ∅) (d !! key))
  | _ => Raise (AttributeError "object has no attribute 'get'")
  end.

(** [d[key] = v] on the shadow data. *)
Definition shadow_setitem (shadow : value) (key : string) (v : value) : result value :=
  match shadow with
  | VDict d => Ok (VDict (<[key := v]> d))
  | _ => Raise (TypeError "object does not support item assignment")
  end.

(** The shadow after the walk below [key] returned [sub']: the child
    reached by [get] is mutated in place when it is stored under [key]; the
    fresh [{}] that [get] returns for a missing key is attached nowhere. *)
Definition shadow_reattach (shadow : value) (key : string) (sub' : value) : value :=
  match shadow with
  | VDict d => match d !! key with
               | Some _ => VDict (<[key := sub']> d)
               | None => shadow
               end
  | _ => shadow
  end.

Section PathEngine.
Variable E : collaborators.

Definition hook_if_defined (name : string) (args : list value) : list event :=
  match method E name with
  | Some _ => [Hook name args]
  | None => []
  end.

(** Modelled from the spec: [UnicornView._set_property] (components.py, not
    part of the source given): the structured set-property capability of the
    component, which runs the type coercion and the field-level hooks
    [updating_<name>] / [updated_<name>] around the attribute write. *)
Definition _set_property (c : component) (name : string) (v : value)
  : component * list event :=
  let v' := clean E name v in
  (<[name := v']> c,
   hook_if_defined ("updating_" +:+ name) [v'] ++
   hook_if_defined ("updated_" +:+ name) [v']).

(** The loop of [_set_property_value] (lines 105-135) from the current
    node and shadow position on the remaining segments.  [is_component]
    says the current node is the component itself (it exposes
    [_set_property]); [full] is the whole property name. *)
Fixpoint set_walk (full : string) (is_component : bool) (node shadow : value)
         (parts : list string) (v : value) {struct parts}
  : result (value * value * list event) :=
  match parts with
  | [] => Ok (node, shadow, [])
  | part :: rest =>
      match node_attr node part with
      | Some child =>
          match rest with
          | [] =>
              let '(node', ev) :=
                if is_component then
                  match node with
                  | VObj a => let '(a', ev) := _set_property a part v in (VObj a', ev)
                  | _ => (node, [])
                  end
                else
                  (node_setattr node part v,
                   hook_if_defined ("updating_" +:+ snake_case full) [v] ++
                   hook_if_defined ("updated_" +:+ snake_case full) [v]) in
              let* shadow' := shadow_setitem shadow part v in
              Ok (node', shadow', ev)
          | _ =>
              let* sub := shadow_get shadow part in
              let* (child', sub', ev) := set_walk full false child sub rest v in
              Ok (node_setattr node part child', shadow_reattach shadow part sub', ev)
          end
      | None =>
          match node with
          | VDict d =>
              match rest with
              | [] =>
                  let* shadow' := shadow_setitem shadow part v in
                  Ok (VDict (<[part := v]> d), shadow', [])
              | _ =>
                  match d !! part with
                  | None => Raise (KeyError part)
                  | Some child =>
                      let* sub := shadow_get shadow part in
                      let* (child', sub', ev) := set_walk full false child sub rest v in
                      Ok (VDict (<[part := child']> d),
                          shadow_reattach shadow part sub', ev)
                  end
              end
          | _ => set_walk full is_component node shadow rest v
          end
      end
  end.

(** [_set_property_value(component, property_name, property_value, data)].
    The name and the value come out of a JSON payload, hence are values. *)
Definition _set_property_value (c : component) (property_name property_value : value)
           (data : value) : result (component * value * list event) :=
  match property_name with
  | VNone => Raise (AssertionError "Property name is required")
  | _ =>
      match property_value with
      | VNone => Raise (AssertionError "Property value is required")
      | _ =>
          match property_name with
          | VStr name =>
              let* (node', data', ev) := set_walk name true (VObj c) data (split_dots name) property_value in
              match node' with
              | VObj c' =>
                  Ok (c', data',
                      [Hook "updating" [property_name; property_value]] ++ ev ++
                      [Hook "updated" [property_name; property_value]])
              | _ => Raise (TypeError "component")
              end
          | _ => Raise (AttributeError "object has no attribute 'split'")
          end
      end
  end.

(** The loop of [_get_property_value] (lines 157-167); falling off the
    loop returns [None]. *)
Fixpoint get_walk (node : value) (parts : list string) {struct parts} : result value :=
  match parts with
  | [] => Ok VNone
  | part :: rest =>
      match node_attr node part with
      | Some child =>
          match rest with
          | [] => Ok child
          | _ => get_walk child rest
          end
      | None =>
          match node with
          | VDict d =>
              match d !! part with
              | None => Raise (KeyError part)
              | Some child =>
                  match rest with
                  | [] => Ok child
                  | _ => get_walk child rest
                  end
              end
          | _ => get_walk node rest
          end
      end
  end.

Definition _get_property_value (c : component) (property_name : value) : result value :=
  match property_name with
  | VNone => Raise (AssertionError "property_name name is required")
  | VStr name => get_walk (VObj c) (split_dots name)
  | _ => Raise (AttributeError "object has no attribute 'split'")
  end.

End PathEngine.

(** ** 4.2 Action dispatcher *)

(** An entry of [Meta.db_models] (a class attribute: one registry for all
    instances of the component class). *)
Record db_model := {
  dm_name : value;
  dm_model_class : value;
  dm_defaults : gmap string value;
}.

(** Calls into the persisted-record store, in call order. *)
Inductive db_op :=
| DbUpdate (cls pk : value) (fields : gmap string value)  (* objects.filter(pk=pk).update of the fields *)
| DbCreate (cls : value) (fields : gmap string value).    (* DbModel of the fields, then save() *)

(** What outlives one pass of the dispatcher: the component class's [Meta]
    ([None]: no [Meta]; [Some None]: a [Meta] without [db_models]), the
    record store, and the dict that is the default of the [data] parameter of
    [_set_property_value] (a mutable default, shared by all calls). *)
Record world := {
  meta : option (option (list db_model));
  db_ops : list db_op;
  default_data : value;
}.

Definition set_meta (w : world) (l : list db_model) : world :=
  {| meta := Some (Some l); db_ops := db_ops w; default_data := default_data w |}.
Definition add_db_op (w : world) (op : db_op) : world :=
  {| meta := meta w; db_ops := db_ops w ++ [op]; default_data := default_data w |}.
Definition set_default_data (w : world) (d : value) : world :=
  {| meta := meta w; db_ops := db_ops w; default_data := d |}.

(** The local variables of [_process_component_request] during the loop
    over the action queue, with the state they act on. *)
Record dstate := {
  st_component : component;
  st_data : value;                 (* component_request.data *)
  st_return : option Return;       (* return_data *)
  st_reset : bool;                 (* is_reset_called *)
  st_validate_all : bool;          (* validate_all_fields *)
  st_world : world;
  st_events : list event;
}.

(** [d.get(key, dflt)] on a payload. *)
Definition dict_get (d : value) (key : string) (dflt : value) : result value :=
  match d with
  | VDict m => Ok (default dflt (m !! key))
  | _ => Raise (AttributeError "object has no attribute 'get'")
  end.

(** The first entry of the registry that satisfies [p], with its index. *)
Fixpoint find_entry (p : db_model -> bool) (l : list db_model) (i : nat)
  : option (nat * db_model) :=
  match l with
  | [] => None
  | m :: l' => if p m then Some (i, m) else find_entry p l' (S i)
  end.

Definition replace_defaults (m : db_model) (d : gmap string value) : db_model :=
  {| dm_name := dm_name m; dm_model_class := dm_model_class m; dm_defaults := d |}.

(** Lines 256-280: the record type [DbModel] ([VNone] when none is found)
    and, when the defaults come from a registry entry, the index of that
    entry ([db_defaults] is then the entry's own dict, not a copy). *)
Definition resolve_db_model (c : component) (w : world) (model db_model_name : value)
  : result (value * option nat) :=
  let* (DbModel, alias) :=
    (if truthy model then
       match model with
       | VStr attr =>
           match c !! attr with
           | None => Raise (AttributeError attr)
           | Some model_class =>
               match node_attr model_class "model" with
               | None => Ok (VNone, None)
               | Some cls =>
                   match meta w with
                   | None => Ok (cls, None)
                   | Some None => Raise (AttributeError "db_models")
                   | Some (Some l) =>
                       Ok (cls, fst <$> find_entry (fun m => py_eq (dm_model_class m) cls) l 0)
                   end
               end
           end
       | _ => Raise (TypeError "getattr(): attribute name must be string")
       end
     else Ok (VNone, None)) in
  if negb (truthy DbModel) && truthy db_model_name then
    match meta w with
    | Some (Some l) =>
        match find_entry (fun m => py_eq (dm_name m) db_model_name) l 0 with
        | Some (i, m) => Ok (dm_model_class m, Some i)
        | None => Ok (DbModel, alias)
        end
    | _ => Raise (AssertionError "Missing Meta.db_models list in component")
    end
  else Ok (DbModel, alias).

(** The defaults [db_defaults] is bound to. *)
Definition aliased_defaults (w : world) (alias : option nat) : gmap string value :=
  match alias, meta w with
  | Some i, Some (Some l) => default ∅ (dm_defaults <$> l !! i)
  | _, _ => ∅
  end.

(** [fields_to_update.update(fields)] written back through the alias. *)
Definition store_defaults (w : world) (alias : option nat) (d : gmap string value) : world :=
  match alias, meta w with
  | Some i, Some (Some l) =>
      match l !! i with
      | Some m => set_meta w (<[i := replace_defaults m d]> l)
      | None => w
      end
  | _, _ => w
  end.

(** Lines 251-282: what a [dbInput] payload decodes and resolves to: the
    record key, the record type, the registry entry aliased by
    [db_defaults], and the fields. *)
Definition decode_db_input (c : component) (w : world) (payload : value)
  : result (value * value * value * value * option nat * value) :=
  let* model := dict_get payload "model" VNone in
  let* db := dict_get payload "db" (VDict ∅) in
  let* db_model_name := dict_get db "name" VNone in
  let* pk := dict_get db "pk" VNone in
  let* (DbModel, alias) := resolve_db_model c w model db_model_name in
  let* fields := dict_get payload "fields" (VDict ∅) in
  Ok (model, db_model_name, pk, DbModel, alias, fields).

(** Lines 250-300: one [dbInput] action. *)
Definition apply_db_input (c : component) (w : world) (payload : value) : result world :=
  let* (model, db_model_name, pk, DbModel, alias, fields) :=
    decode_db_input c w payload in
  if negb (truthy DbModel) then
    Raise (AssertionError ("Missing " +:+ py_str model +:+ ".model and " +:+
                           py_str db_model_name +:+ " in Meta.db_models"))
  else
    match DbModel with
    | VClass _ true =>
        if truthy fields then
          match fields with
          | VDict f =>
              let fields_to_update := f ∪ aliased_defaults w alias in
              let w1 := store_defaults w alias fields_to_update in
              if truthy pk then Ok (add_db_op w1 (DbUpdate DbModel pk fields_to_update))
              else Ok (add_db_op w1 (DbCreate DbModel fields_to_update))
          | _ => Raise (TypeError "dict.update() argument")
          end
        else Ok w
    | VClass _ false =>
        Raise (AssertionError "Model must be an instance of `django.db.models.Model")
    | _ => Raise (TypeError "issubclass() arg 1 must be a class")
    end.

(** An action and a request as they come off the wire.  [ComponentRequest]
    is declared in message.py; its fields are the ones the view reads. *)
Abbreviation action := (gmap string value).

(** [action.get("type")] and [action.get("payload", {})]. *)
Definition action_type (a : action) : value := default VNone (a !! "type").
Definition action_payload (a : action) : value := default (VDict ∅) (a !! "payload").

Record ComponentRequest := {
  cr_id : string;
  cr_data : gmap string value;
  cr_action_queue : list action;
  cr_epoch : Z;
}.

(** What a pass of the dispatcher leaves behind, next to the envelope. *)
Record pass := {
  p_envelope : gmap string value;
  p_world : world;
  p_events : list event;
  p_validated : bool;      (* [component.validate] was invoked *)
}.

Section Dispatcher.
Variable E : collaborators.

(** [_set_property_from_data] (lines 42-65).  The recursion descends one
    level into the object graph at every call; [fuel] bounds its depth.
    The keys of a dict are visited in the order of the map. *)
Fixpoint _set_property_from_data (fuel : nat) (is_component : bool) (node : value)
         (name : string) (v : value) {struct fuel} : result (value * list event) :=
  match fuel with
  | O => Raise RecursionError
  | S fuel' =>
      match node_attr node name with
      | None => Ok (node, [])
      | Some field =>
          match field with
          | VObj fa =>
              (* UnicornField and Models are always a dictionary (can be nested) *)
              match v with
              | VDict d =>
                  let* (field', ev) :=
                    map_fold
                      (fun key key_value acc =>
                         let* (f, ev) := acc in
                         let* (f', ev') :=
                           _set_property_from_data fuel' false f key key_value in
                         Ok (f', ev ++ ev'))
                      (Ok (field, [])) d in
                  Ok (node_setattr node name field', ev)
              | _ =>
                  match fa !! "name" with
                  | None => Raise (AttributeError "name")
                  | Some (VStr n) =>
                      let* (field', ev) :=
                        _set_property_from_data fuel' false field n v in
                      Ok (node_setattr node name field', ev)
                  | Some _ => Raise (TypeError "hasattr(): attribute name must be string")
                  end
              end
          | _ =>
              if is_component then
                match node with
                | VObj a => let '(a', ev) := _set_property E a name v in Ok (VObj a', ev)
                | _ => Ok (node, [])
                end
              else Ok (node_setattr node name v, [])
          end
      end
  end.

(** Lines 233-235: hydration from the request data, then [hydrate()]. *)
Definition hydrate_from_data (fuel : nat) (c : component) (data : gmap string value)
  : result (component * list event) :=
  let* (node, ev) :=
    map_fold
      (fun property_name property_value acc =>
         let* (n, ev) := acc in
         let* (n', ev') :=
           _set_property_from_data fuel true n property_name property_value in
         Ok (n', ev ++ ev'))
      (Ok (VObj c, [])) data in
  match node with
  | VObj c' => Ok (c', ev ++ [Hook "hydrate" []])
  | _ => Raise (TypeError "component")
  end.

(** Modelled from the spec: the [Return] class (message.py, not part of the
    source given): the pending return value of a request, built from the
    method name and its parameters, with the redirect and poll descriptors
    that assigning [value] derives from it. *)
Definition new_Return (method_name : string) (params : list value) : Return :=
  {| r_method_name := method_name; r_params := params;
     r_value := VDict ∅; r_redirect := VDict ∅; r_poll := VDict ∅ |}.

Definition Return_set_value (r : Return) (v : value) : Return :=
  {| r_method_name := r_method_name r; r_params := r_params r;
     r_value := v; r_redirect := redirect_of E v; r_poll := poll_of E v |}.

(** [_call_method_name] (lines 171-189). *)
Definition _call_method_name (c : component) (method_name : string) (params : list value)
  : result (component * value) :=
  match method E method_name with
  | Some func => func params c
  | None => Ok (c, VNone)
  end.

(** A call of [_set_property_value] without [data]: the shadow is the
    shared default dict. *)
Definition set_property_default (c : component) (w : world) (name v : value)
  : result (component * world * list event) :=
  let* (c', d', ev) := _set_property_value E c name v (default_data w) in
  Ok (c', set_default_data w d', ev).

(** Lines 345-349: the loop of [$toggle] over its parameters. *)
Fixpoint toggle_all (c : component) (w : world) (params : list value)
  : result (component * world * list event) :=
  match params with
  | [] => Ok (c, w, [])
  | property_name :: rest =>
      let* property_value := _get_property_value c property_name in
      let property_value := VBool (negb (truthy property_value)) in
      let* (c1, w1, ev1) := set_property_default c w property_name property_value in
      let* (c2, w2, ev2) := toggle_all c1 w1 rest in
      Ok (c2, w2, ev1 ++ ev2)
  end.

Definition with_component (st : dstate) (c : component) (w : world) (ev : list event)
  : dstate :=
  {| st_component := c; st_data := st_data st; st_return := st_return st;
     st_reset := st_reset st; st_validate_all := st_validate_all st;
     st_world := w; st_events := st_events st ++ ev |}.

Definition with_return (st : dstate) (r : Return) : dstate :=
  {| st_component := st_component st; st_data := st_data st; st_return := Some r;
     st_reset := st_reset st; st_validate_all := st_validate_all st;
     st_world := st_world st; st_events := st_events st |}.

(** Lines 301-358: one [callMethod] action. *)
Definition apply_call_method (id component_name : string) (st : dstate) (payload : value)
  : result dstate :=
  let* call_method_name := dict_get payload "name" (VStr "") in
  if negb (truthy call_method_name) then
    Raise (AssertionError "Missing 'name' key for callMethod")
  else
    match call_method_name with
    | VStr cmn =>
        let* (method_name, params) := parse_call_method_name E cmn in
        let st := with_return st (new_Return method_name params) in
        let setter_method := if contains_eq cmn then parse_kwarg E cmn else None in
        match setter_method with
        | Some (property_name, property_value) =>
            let* (c', w', ev) :=
              set_property_default (st_component st) (st_world st)
                                   (VStr property_name) property_value in
            Ok (with_return (with_component st c' w' ev)
                            (new_Return property_name [property_value]))
        | None =>
            if String.eqb method_name "$refresh" then
              Ok (with_component st (create E id component_name true) (st_world st) [])
            else if String.eqb method_name "$reset" then
              let c := create E id component_name false in
              let st := with_component st (<["errors" := VDict ∅]> c) (st_world st) [] in
              Ok {| st_component := st_component st; st_data := st_data st;
                    st_return := st_return st; st_reset := true;
                    st_validate_all := st_validate_all st;
                    st_world := st_world st; st_events := st_events st |}
            else if String.eqb method_name "$toggle" then
              let* (c', w', ev) := toggle_all (st_component st) (st_world st) params in
              Ok (with_component st c' w' ev)
            else if String.eqb method_name "$validate" then
              Ok {| st_component := st_component st; st_data := st_data st;
                    st_return := st_return st; st_reset := st_reset st;
                    st_validate_all := true;
                    st_world := st_world st; st_events := st_events st |}
            else
              let args := [VStr method_name; VList params] in
              let* (c', v) := _call_method_name (st_component st) method_name params in
              let r := Return_set_value (new_Return method_name params) v in
              Ok (with_return
                    (with_component st c' (st_world st)
                                    [Hook "calling" args; Hook "called" args])
                    r)
        end
    | _ => Raise (TypeError "call_method_name is not a string")
    end.

(** Lines 244-249: one [syncInput] action. *)
Definition apply_sync_input (st : dstate) (payload : value) : result dstate :=
  let* property_name := dict_get payload "name" VNone in
  let* property_value := dict_get payload "value" VNone in
  let* (c', data', ev) :=
    _set_property_value E (st_component st) property_name property_value (st_data st) in
  Ok {| st_component := c'; st_data := data'; st_return := st_return st;
        st_reset := st_reset st; st_validate_all := st_validate_all st;
        st_world := st_world st; st_events := st_events st ++ ev |}.

(** Lines 241-360: the body of the loop over the action queue. *)
Definition apply_action (id component_name : string) (st : dstate) (a : action)
  : result dstate :=
  let payload := action_payload a in
  if py_eq (action_type a) (VStr "syncInput") then apply_sync_input st payload
  else if py_eq (action_type a) (VStr "dbInput") then
    let* w' := apply_db_input (st_component st) (st_world st) payload in
    Ok (with_component st (st_component st) w' [])
  else if py_eq (action_type a) (VStr "callMethod") then
    apply_call_method id component_name st payload
  else Raise (UnicornViewError
                ("Unknown action_type '" +:+ py_str (action_type a) +:+ "'")).

Fixpoint apply_actions (id component_name : string) (st : dstate) (q : list action)
  : result dstate :=
  match q with
  | [] => Ok st
  | a :: q' =>
      let* st' := apply_action id component_name st a in
      apply_actions id component_name st' q'
  end.

(** Lines 369-373: the top-level keys whose value differs between the
    inbound snapshot and the re-derived one.  (The inbound snapshot is a
    shallow copy taken before the loop.) *)
Definition model_names_to_validate (original_data data : gmap string value)
  : list string :=
  List.filter
    (fun key => negb (py_eq (default VNone (original_data !! key))
                            (default VNone (data !! key))))
    (map_to_list original_data).*1.

(** Lines 365-375: the validation step of PostProcessing.  The second
    component says whether [component.validate] was invoked. *)
Definition post_validate (st : dstate) (original_data data : gmap string value)
  : component * bool :=
  if negb (st_reset st) then
    if st_validate_all st then (validate E None (st_component st), true)
    else (validate E (Some (model_names_to_validate original_data data))
                   (st_component st), true)
  else (st_component st, false).

Definition getattr (c : component) (name : string) : result value :=
  match c !! name with
  | Some v => Ok v
  | None => Raise (AttributeError name)
  end.

(** Lines 401-431: the optional [parent] entry of the envelope. *)
Definition parent_entry (c : component) : result (option value) :=
  let* parent_component := getattr c "parent" in
  if truthy parent_component then
    match parent_component with
    | VObj p =>
        let parent_frontend_context_variables := frontend_context E p in
        let dom := render E p in
        let checksum := find_checksum E dom in
        let* pid := getattr p "component_id" in
        let* perrors := getattr p "errors" in
        Ok (Some (VDict (<["id" := pid]>
                        (<["dom" := VStr dom]>
                        (<["checksum" := checksum]>
                        (<["data" := VDict parent_frontend_context_variables]>
                        (<["errors" := perrors]> ∅)))))))
    | _ => Raise (AttributeError "get_frontend_context_variables")
    end
  else Ok None.

Definition update_if (b : bool) (key : string) (v : value) (res : gmap string value)
  : gmap string value :=
  if b then <[key := v]> res else res.

(** Lines 386-399: the keys the pending return value adds. *)
Definition add_return (return_data : option Return) (res : gmap string value)
  : gmap string value :=
  match return_data with
  | None => res
  | Some r =>
      update_if (truthy (r_poll r)) "poll" (r_poll r)
        (update_if (truthy (r_redirect r)) "redirect" (r_redirect r)
           (<["return" := get_data E r]> res))
  end.

(** Lines 222-238: the component is fetched and hydrated from the
    request data; the loop variables start out unset. *)
Definition hydrated_state (fuel : nat) (w : world) (component_name : string)
           (component_request : ComponentRequest) : result dstate :=
  let c := create E (cr_id component_request) component_name true in
  let* (c, ev) := hydrate_from_data fuel c (cr_data component_request) in
  Ok {| st_component := c; st_data := VDict (cr_data component_request);
        st_return := None; st_reset := false; st_validate_all := false;
        st_world := w; st_events := ev |}.

(** Lines 362-433: PostProcessing, Rendering and the envelope. *)
Definition finish (id : string) (original_data : gmap string value) (st : dstate)
  : result pass :=
  let data := frontend_context E (st_component st) in
  let '(c, validated) := post_validate st original_data data in
  let rendered_component := render E c in
  let* errors := getattr c "errors" in
  let res : gmap string value :=
    <["id" := VStr id]>
      (<["dom" := VStr rendered_component]>
      (<["data" := VDict data]>
      (<["errors" := errors]> ∅))) in
  let res := add_return (st_return st) res in
  let* parent := parent_entry c in
  let res := match parent with
             | Some p => <["parent" := p]> res
             | None => res
             end in
  Ok {| p_envelope := res; p_world := st_world st; p_events := st_events st;
        p_validated := validated |}.

(** [_process_component_request] (lines 222-433). *)
Definition _process_component_request (fuel : nat) (w : world) (component_name : string)
           (component_request : ComponentRequest) : result pass :=
  let id := cr_id component_request in
  let original_data := cr_data component_request in
  let* st0 := hydrated_state fuel w component_name component_request in
  let* st := apply_actions id component_name st0 (cr_action_queue component_request) in
  finish id original_data st.

End Dispatcher.

(** ** 4.3 Request coordinator *)

(** The shared expiring store (one queue per key), the state the
    dispatcher acts on, and the requests handed to the dispatcher so far, in
    call order. *)
Record cstate := {
  cache : gmap string (list ComponentRequest);
  c_world : world;
  passes : list ComponentRequest;
}.

Definition cache_set (s : cstate) (key : string) (q : list ComponentRequest) : cstate :=
  {| cache := <[key := q]> (cache s); c_world := c_world s; passes := passes s |}.

(** [sorted(component_requests, key=lambda cr: cr.epoch)]: ascending and
    stable. *)
Fixpoint insert_by_epoch (r : ComponentRequest) (l : list ComponentRequest)
  : list ComponentRequest :=
  match l with
  | [] => [r]
  | x :: l' =>
      if (cr_epoch r <=? cr_epoch x)%Z then r :: x :: l'
      else x :: insert_by_epoch r l'
  end.

Fixpoint sort_by_epoch (l : list ComponentRequest) : list ComponentRequest :=
  match l with
  | [] => []
  | r :: l' => insert_by_epoch r (sort_by_epoch l')
  end.

(** Lines 527-546: the fold of the remaining requests into one. *)
Definition merge_requests (first : ComponentRequest) (others : list ComponentRequest)
  : ComponentRequest :=
  {| cr_id := cr_id first; cr_data := cr_data first;
     cr_action_queue := cr_action_queue first ++ List.concat (cr_action_queue <$> others);
     cr_epoch := cr_epoch first |}.

Definition queued_ack (epoch original_epoch : Z) : gmap string value :=
  <["queued" := VBool true]>
    (<["epoch" := VInt epoch]>
    (<["original_epoch" := VInt original_epoch]> ∅)).

Definition json_get (res : gmap string value) (key : string) : value :=
  default (VDict ∅) (res !! key).

Section Coordinator.
(** [_process_component_request], on the state it acts on. *)
Variable process : world -> string -> ComponentRequest -> result pass.

Definition drain_type : Type :=
  cstate -> string -> string -> result (gmap string value * cstate).

(** [_handle_component_request] (lines 461-476), over the drain it ends in. *)
Definition submit (drain : drain_type) (s : cstate) (component_name : string)
           (component_request : ComponentRequest)
  : result (gmap string value * cstate) :=
  let component_cache_key := component_name +:+ ":" +:+ cr_id component_request in
  let component_requests :=
    default [] (cache s !! component_cache_key) ++ [component_request] in
  let s := cache_set s component_cache_key component_requests in
  if (1 <? List.length component_requests)%nat then
    match component_requests with
    | first :: _ =>
        Ok (queued_ack (cr_epoch component_request) (cr_epoch first), s)
    | [] => Raise (IndexError "list index out of range")
    end
  else drain s component_name component_cache_key.

(** Requests of other callers that reach the queue while a pass of the
    dispatcher runs: each appends itself and, not being alone in the queue,
    leaves with a queued acknowledgment. *)
Definition land (s : cstate) (key : string) (batch : list ComponentRequest) : cstate :=
  match batch with
  | [] => s
  | _ => cache_set s key (default [] (cache s !! key) ++ batch)
  end.

(** [_handle_component_requests] (lines 507-564).  [arrivals] lists, pass
    by pass, the requests that land during that pass; [fuel] bounds the
    re-entrant calls. *)
Fixpoint _handle_component_requests (fuel : nat) (arrivals : list (list ComponentRequest))
         (s : cstate) (component_name component_cache_key : string) {struct fuel}
  : result (gmap string value * cstate) :=
  match fuel with
  | O => Raise RecursionError
  | S fuel' =>
      match cache s !! component_cache_key with
      | None => Raise (TypeError "'NoneType' object is not iterable")
      | Some component_requests =>
          match sort_by_epoch component_requests with
          | [] => Raise (IndexError "list index out of range")
          | first_component_request :: _ =>
              let* p := process (c_world s) component_name first_component_request in
              let json_result := p_envelope p in
              let s := {| cache := cache s; c_world := p_world p;
                          passes := passes s ++ [first_component_request] |} in
              let s := land s component_cache_key (hd [] arrivals) in
              match cache s !! component_cache_key with
              | None => Raise (AttributeError "'NoneType' object has no attribute 'pop'")
              | Some [] => Raise (IndexError "pop from empty list")
              | Some (_ :: component_requests) =>
                  let s := cache_set s component_cache_key component_requests in
                  match component_requests with
                  | [] => Ok (json_result, s)
                  | first_remaining :: others =>
                      let merged_component_request :=
                        merge_requests first_remaining others in
                      let s := cache_set s component_cache_key [] in
                      let* (new_json_result, s) :=
                        submit (_handle_component_requests fuel' (tl arrivals))
                               s component_name merged_component_request in
                      let original_return := json_get json_result "return" in
                      let new_return := json_get new_json_result "return" in
                      Ok (<["return" := VList [original_return; new_return]]>
                            new_json_result, s)
                  end
              end
          end
      end
  end.

Definition _handle_component_request (fuel : nat) (arrivals : list (list ComponentRequest))
  : cstate -> string -> ComponentRequest -> result (gmap string value * cstate) :=
  submit (_handle_component_requests fuel arrivals).

(** [handle_error] (lines 29-38) around the body of [message]. *)
Definition handle_error (r : result (gmap string value)) : result (gmap string value) :=
  match r with
  | Raise (UnicornViewError e) => Ok (<["error" := VStr e]> ∅)
  | Raise (AssertionError e) => Ok (<["error" := VStr e]> ∅)
  | _ => r
  end.

(** [message] (lines 571-597); the request body is already decoded into
    a [ComponentRequest]. *)
Definition message (fuel : nat) (arrivals : list (list ComponentRequest)) (s : cstate)
           (component_name : string) (component_request : ComponentRequest)
  : result (gmap string value) :=
  handle_error
    (if String.eqb component_name "" then
       Raise (AssertionError "Missing component name in url")
     else
       let* (json_result, _) :=
         _handle_component_request fuel arrivals s component_name component_request in
       Ok json_result).

End Coordinator.

(** The view with the dispatcher plugged into the coordinator. *)
Definition unicorn_message (E : collaborators) (fuel : nat)
           (arrivals : list (list ComponentRequest)) (s : cstate)
           (component_name : string) (component_request : ComponentRequest)
  : result (gmap string value) :=
  message (_process_component_request E fuel) fuel arrivals s
          component_name component_request.

(** ** Traversals, as relations *)

(** [missing_key node parts k]: the walk of [parts] from [node] looks [k]
    up in a dict that does not hold it. *)
Inductive missing_key : value -> list string -> string -> Prop :=
| mk_here d part rest :
    d !! part = None -> missing_key (VDict d) (part :: rest) part
| mk_attr node part child rest k :
    node_attr node part = Some child ->
    missing_key child rest k -> missing_key node (part :: rest) k
| mk_key d part child rest k :
    d !! part = Some child ->
    missing_key child rest k -> missing_key (VDict d) (part :: rest) k
| mk_skip node part rest k :
    node_attr node part = None -> is_dict node = false ->
    missing_key node rest k -> missing_key node (part :: rest) k.

(** [walks_to node shadow pre n sh]: every segment of [pre] resolves, by
    attribute or by key, and leads from [node] to [n]; the shadow position
    follows by [get(part, {})] from [shadow] to [sh]. *)
Inductive walks_to : value -> value -> list string -> value -> value -> Prop :=
| wt_nil node sh : walks_to node sh [] node sh
| wt_attr node sd part child pre n sh :
    node_attr node part = Some child ->
    walks_to child (default (VDict ∅) (sd !! part)) pre n sh ->
    walks_to node (VDict sd) (part :: pre) n sh
| wt_key d sd part child pre n sh :
    d !! part = Some child ->
    walks_to child (default (VDict ∅) (sd !! part)) pre n sh ->
    walks_to (VDict d) (VDict sd) (part :: pre) n sh.

(** ** Predicates used in the statements *)

Definition set_return (st : dstate) (o : option Return) : dstate :=
  {| st_component := st_component st; st_data := st_data st; st_return := o;
     st_reset := st_reset st; st_validate_all := st_validate_all st;
     st_world := st_world st; st_events := st_events st |}.

(** A [callMethod] action whose expression is no assignment and parses to
    the method name [$reset]. *)
Definition is_reset_call (E : collaborators) (a : action) : Prop :=
  action_type a = VStr "callMethod" /\
  exists cmn params,
    dict_get (action_payload a) "name" (VStr "") = Ok (VStr cmn) /\
    cmn <> "" /\
    parse_call_method_name E cmn = Ok ("$reset", params) /\
    (if contains_eq cmn then parse_kwarg E cmn else None) = None.

(** What a [dbInput] payload resolves to, when it does. *)
Definition db_input_resolves (c : component) (w : world) (payload : value)
           (pk DbModel : value) (alias : option nat) (fields : value) : Prop :=
  exists model db_model_name,
    decode_db_input c w payload = Ok (model, db_model_name, pk, DbModel, alias, fields).

Definition op_fields (op : db_op) : gmap string value :=
  match op with
  | DbUpdate _ _ f => f
  | DbCreate _ f => f
  end.

(** ** Sample collaborators, components and requests *)

(** Modelled from the spec: [Return.get_data] (message.py, not part of the
    source given): the method name, its parameters and the captured value. *)
Definition return_data_of (r : Return) : value :=
  VDict (<["method" := VStr (r_method_name r)]>
        (<["params" := VList (r_params r)]>
        (<["value" := r_value r]> ∅))).

Definition fresh_view : component :=
  <["errors" := VDict ∅]> (<["parent" := VNone]> (<["count" := VInt 1]> ∅)).

(** A component class without a form, without methods and without hooks;
    call expressions are bare method names. *)
Definition bare : collaborators :=
  {| create := fun _ _ _ => fresh_view;
     clean := fun _ v => v;
     method := fun _ => None;
     parse_call_method_name := fun s => Ok (s, []);
     parse_kwarg := fun _ => None;
     validate := fun _ c => c;
     render := fun _ => "";
     frontend_context := fun c => delete "errors" (delete "parent" c);
     redirect_of := fun _ => VDict ∅;
     poll_of := fun _ => VDict ∅;
     get_data := return_data_of;
     find_checksum := fun _ => VNone |}.

(** The same class with a method [save] that records a validation error. *)
Definition name_required : value :=
  VDict (<["name" := VList [VStr "required"]]> ∅).

Definition saving : collaborators :=
  {| create := create bare;
     clean := clean bare;
     method := fun name =>
       if String.eqb name "save"
       then Some (fun _ c => Ok (<["errors" := name_required]> c, VNone))
       else None;
     parse_call_method_name := parse_call_method_name bare;
     parse_kwarg := parse_kwarg bare;
     validate := validate bare;
     render := render bare;
     frontend_context := frontend_context bare;
     redirect_of := redirect_of bare;
     poll_of := poll_of bare;
     get_data := get_data bare;
     find_checksum := find_checksum bare |}.

Definition author_view : component :=
  <["author" := VObj (<["name" := VStr "Neil"]> ∅)]>
    (<["name" := VStr "view"]>
    (<["tags" := VDict ∅]> ∅)).

Definition call_method (expression : string) : action :=
  <["type" := VStr "callMethod"]>
    (<["payload" := VDict (<["name" := VStr expression]> ∅)]> ∅).

Definition sync_input (name : string) (v : value) : action :=
  <["type" := VStr "syncInput"]>
    (<["payload" := VDict (<["name" := VStr name]> (<["value" := v]> ∅))]> ∅).

Definition request (epoch : Z) (q : list action) : ComponentRequest :=
  {| cr_id := "7"; cr_data := ∅; cr_action_queue := q; cr_epoch := epoch |}.

Definition epoch1 : ComponentRequest := request 1 [call_method "first"].
Definition epoch2 : ComponentRequest := request 2 [call_method "second"].

(** What the dispatcher returns for a call of a method the class lacks. *)
Definition result_of (method_name : string) : value :=
  return_data_of {| r_method_name := method_name; r_params := [];
                    r_value := VNone; r_redirect := VDict ∅; r_poll := VDict ∅ |}.

Definition empty_world : world :=
  {| meta := None; db_ops := []; default_data := VDict ∅ |}.

Definition book_entry : db_model :=
  {| dm_name := VStr "book"; dm_model_class := VClass "Book" true;
     dm_defaults := <["kind" := VStr "novel"]> ∅ |}.

Definition book_world : world :=
  {| meta := Some (Some [book_entry]); db_ops := []; default_data := VDict ∅ |}.

Definition db_input (name : string) (fields : gmap string value) : value :=
  VDict (<["db" := VDict (<["name" := VStr name]> ∅)]>
        (<["fields" := VDict fields]> ∅)).

Definition idle : cstate :=
  {| cache := ∅; c_world := empty_world; passes := [] |}.


(** The values [py_str] prints exactly. *)
Definition is_scalar (v : value) : bool :=
  match v with
  | VNone | VBool _ | VInt _ | VStr _ => true
  | _ => false
  end.

(** The bare class, with a parser that reads every expression in assignment
    form as [count = 2]. *)
Definition assigning : collaborators :=
  {| create := create bare;
     clean := clean bare;
     method := method bare;
     parse_call_method_name := parse_call_method_name bare;
     parse_kwarg := fun _ => Some ("count", VInt 2);
     validate := validate bare;
     render := render bare;
     frontend_context := frontend_context bare;
     redirect_of := redirect_of bare;
     poll_of := poll_of bare;
     get_data := get_data bare;
     find_checksum := find_checksum bare |}.


(** ** Where the model speaks for the code

    The table of a structured node lists the public names [hasattr] reports
    for the object; [set_walk] and [get_walk] answer [hasattr] from it.
    Python exposes further names that are in no table: names that start
    with an underscore ([__dict__], [__class__]), the attributes of the
    builtin types ([keys] on a dict, [upper] on a str) and, on the
    component, the methods of its class, which [method] lists.  The tables
    of builtin attributes below are the public names of [dir()] of the type,
    over the versions of Python 3. *)

Definition private_name (s : string) : bool :=
  match s with
  | String c _ => Ascii.eqb c "_"%char
  | EmptyString => false
  end.

Definition dict_names : list string :=
  ["clear"; "copy"; "fromkeys"; "get"; "items"; "keys"; "pop"; "popitem";
   "setdefault"; "update"; "values"].

Definition list_names : list string :=
  ["append"; "clear"; "copy"; "count"; "extend"; "index"; "insert"; "pop";
   "remove"; "reverse"; "sort"].

Definition str_names : list string :=
  ["capitalize"; "casefold"; "center"; "count"; "encode"; "endswith";
   "expandtabs"; "find"; "format"; "format_map"; "index"; "isalnum"; "isalpha";
   "isascii"; "isdecimal"; "isdigit"; "isidentifier"; "islower"; "isnumeric";
   "isprintable"; "isspace"; "istitle"; "isupper"; "join"; "ljust"; "lower";
   "lstrip"; "maketrans"; "partition"; "removeprefix"; "removesuffix"; "replace";
   "rfind"; "rindex"; "rjust"; "rpartition"; "rsplit"; "rstrip"; "split";
   "splitlines"; "startswith"; "strip"; "swapcase"; "title"; "translate"; "upper";
   "zfill"].

Definition int_names : list string :=
  ["as_integer_ratio"; "bit_count"; "bit_length"; "conjugate"; "denominator";
   "from_bytes"; "imag"; "is_integer"; "numerator"; "real"; "to_bytes"].

(** [hasattr(node, s)] for a public name [s] that no table holds.  The
    attributes of a class object are not known: every name counts. *)
Definition builtin_attr (node : value) (s : string) : bool :=
  match node with
  | VNone => false
  | VBool _ | VInt _ => bool_decide (s ∈ int_names)
  | VStr _ => bool_decide (s ∈ str_names)
  | VList _ => bool_decide (s ∈ list_names)
  | VDict _ => bool_decide (s ∈ dict_names)
  | VObj _ => false
  | VClass _ _ => true
  end.

(** The name [s] is exposed by [node] without being in its table. *)
Definition hidden (E : collaborators) (is_component : bool) (node : value) (s : string)
  : bool :=
  private_name s || builtin_attr node s ||
  (is_component && bool_decide (is_Some (method E s))).

(** [set_walk] takes every object below the component for a field or a
    model, which does not expose [_set_property] (line 108).  An object
    below the component that is itself a component, as a parent is, carries
    the entry [_set_property] in its table and is told by it. *)
Definition is_field (node : value) : bool :=
  negb (bool_decide (is_Some (node_attr node "_set_property"))).

(** The walk of [parts] from [node], as [_get_property_value] and
    [_set_property_value] both make it, asks no node for a name that the
    node exposes without having it in its table, and meets no component
    below the top level. *)
Fixpoint plain_walk (E : collaborators) (is_component : bool) (node : value)
         (parts : list string) {struct parts} : bool :=
  match parts with
  | [] => true
  | part :: rest =>
      negb (hidden E is_component node part) &&
      (is_component || is_field node) &&
      match node_attr node part with
      | Some child => plain_walk E false child rest
      | None =>
          match node with
          | VDict d =>
              match d !! part with
              | Some child => plain_walk E false child rest
              | None => true
              end
          | _ => plain_walk E is_component node rest
          end
      end
  end.

(** The calls of the hooks are logged as events; the bodies that [method]
    holds for them are not run.  The log is the whole effect of a hook that
    is [inert]: not defined by the class or, like the hooks of the base
    class, returning with the component as it found it. *)
Definition inert (E : collaborators) (name : string) : Prop :=
  forall f, method E name = Some f ->
            forall args c, exists r, f args c = Ok (c, r).

(** The hooks a set of the path [p] invokes: the generic pair, and the pair
    named after the last segment (a write on the component, by
    [_set_property]) or after the whole path (a write below it,
    lines 113-123). *)
Definition set_hooks_inert (E : collaborators) (p : string) : Prop :=
  inert E "updating" /\ inert E "updated" /\
  forall s, s = snake_case p \/ last (split_dots p) = Some s ->
            inert E ("updating_" +:+ s) /\ inert E ("updated_" +:+ s).

(** [reaches node pre n]: the walk of [pre] from [node] ends on [n].  A
    segment that is an attribute of the current node, or a key of it when it
    is a dict, leads to the child; a segment that is neither, on a node that
    is no dict, is skipped: the walk stays where it is. *)
Inductive reaches : value -> list string -> value -> Prop :=
| rc_nil node : reaches node [] node
| rc_attr node part child pre n :
    node_attr node part = Some child ->
    reaches child pre n -> reaches node (part :: pre) n
| rc_key d part child pre n :
    d !! part = Some child ->
    reaches child pre n -> reaches (VDict d) (part :: pre) n
| rc_skip node part pre n :
    node_attr node part = None -> is_dict node = false ->
    reaches node pre n -> reaches node (part :: pre) n.

(** ** Further samples *)


Definition address_view : component :=
  <["author" := VObj (<["address" := VObj (<["city" := VStr "Oslo"]> ∅)]> ∅)]> ∅.

(** A parent component and a child of it. *)
Definition parent_view : component :=
  <["_set_property" := VNone]>
    (<["component_id" := VStr "3"]> (<["errors" := VDict ∅]> (<["parent" := VNone]> ∅))).

Definition child_view : component :=
  <["errors" := VDict ∅]> (<["parent" := VObj parent_view]> ∅).

Definition epoch3 : ComponentRequest := request 3 [call_method "third"].

(** ** Properties of the path engine *)

Lemma get_walk_cases parts : forall node,
  (exists v, get_walk node parts = Ok v) \/
  (exists k, get_walk node parts = Raise (KeyError k) /\ missing_key node parts k).
Proof.
  induction parts as [|part rest IH]; intros node; simpl.
  - left. eauto.
  - destruct (node_attr node part) as [child|] eqn:Hattr.
    + destruct rest as [|r rest']; [left; eauto|].
      destruct (IH child) as [Hok | (k & Hk & Hm)]; [left; exact Hok|].
      right. exists k. split; [exact Hk|]. eapply mk_attr; eauto.
    + assert (Hskip : is_dict node = false ->
                      (exists v, get_walk node rest = Ok v) \/
                      (exists k, get_walk node rest = Raise (KeyError k) /\
                                 missing_key node (part :: rest) k)).
      { intros Hnd. destruct (IH node) as [Hok | (k & Hk & Hm)]; [left; exact Hok|].
        right. exists k. split; [exact Hk|]. by apply mk_skip. }
      destruct node as [| | | | |d| |]; try (apply Hskip; reflexivity).
      clear Hskip. destruct (d !! part) as [child|] eqn:Hd.
      * destruct rest as [|r rest']; [left; eauto|].
        destruct (IH child) as [Hok | (k & Hk & Hm)]; [left; exact Hok|].
        right. exists k. split; [exact Hk|]. eapply mk_key; eauto.
      * right. exists part. split; [reflexivity|]. by apply mk_here.
Qed.

Lemma get_walk_attr_step node part rest child :
  node_attr node part = Some child -> rest <> [] ->
  get_walk node (part :: rest) = get_walk child rest.
Proof. intros H Hr. simpl. rewrite H. destruct rest; [done | reflexivity]. Qed.

Lemma get_walk_key_step (d : gmap string value) part rest child :
  d !! part = Some child -> rest <> [] ->
  get_walk (VDict d) (part :: rest) = get_walk child rest.
Proof. intros H Hr. simpl. rewrite H. destruct rest; [done | reflexivity]. Qed.

Lemma get_walk_missing_key node parts k :
  missing_key node parts k -> get_walk node parts = Raise (KeyError k).
Proof.
  induction 1 as [d part rest Hd | node part child rest k Hattr Hm IH
                  | d part child rest k Hd Hm IH | node part rest k Hattr Hnd Hm IH].
  - simpl. by rewrite Hd.
  - destruct rest as [|r rest]; [inversion Hm|].
    by rewrite (get_walk_attr_step _ _ _ _ Hattr).
  - destruct rest as [|r rest]; [inversion Hm|].
    by rewrite (get_walk_key_step _ _ _ _ Hd).
  - simpl. rewrite Hattr. destruct node; try exact IH. discriminate Hnd.
Qed.

Lemma app_not_nil {A} (pre rest : list A) : rest <> [] -> pre ++ rest <> [].
Proof. destruct pre; [done | discriminate]. Qed.

Lemma get_walk_reaches node pre owner last :
  reaches node pre owner ->
  get_walk node (pre ++ [last]) =
    match node_attr owner last, owner with
    | Some x, _ => Ok x
    | None, VDict d =>
        match d !! last with
        | Some x => Ok x
        | None => Raise (KeyError last)
        end
    | None, _ => Ok VNone
    end.
Proof.
  induction 1 as [node | node part child pre n Hattr Hr IH
                  | d part child pre n Hd Hr IH | node part pre n Hattr Hnd Hr IH].
  - cbn [app get_walk]. destruct (node_attr node last); [reflexivity|].
    destruct node; reflexivity.
  - rewrite <- app_comm_cons, (get_walk_attr_step _ _ _ _ Hattr); [exact IH|].
    apply app_not_nil. discriminate.
  - rewrite <- app_comm_cons, (get_walk_key_step _ _ _ _ Hd); [exact IH|].
    apply app_not_nil. discriminate.
  - rewrite <- app_comm_cons. cbn [get_walk]. rewrite Hattr.
    destruct node; try exact IH. discriminate Hnd.
Qed.

Lemma bare_inert name : inert bare name.
Proof. intros f Hf. discriminate Hf. Qed.

Lemma bare_set_hooks_inert p : set_hooks_inert bare p.
Proof.
  split; [apply bare_inert|]. split; [apply bare_inert|].
  intros s _. split; apply bare_inert.
Qed.

(** C2 (as the code has it): [_get_property_value] on a path of field names.
    The walk follows a segment by attribute or, on a keyed container, by
    key, and skips a segment that is neither an attribute of the current
    node nor applied to a keyed container.  With [owner] the node the walk
    of all segments but the last ends on, the get returns what the last
    segment yields there: the attribute or the entry of that name, absent
    when the last segment is skipped, and [KeyError] when [owner] is a keyed
    container that lacks it.  The get raises nothing but [KeyError], and
    raises it exactly when the walk looks a segment up, at any depth, in a
    keyed container that lacks it. *)
Theorem get_property_value_no_raise (E : collaborators) (c : component) (p : string) :
  plain_walk E true (VObj c) (split_dots p) = true ->
  (forall pre last owner,
      split_dots p = pre ++ [last] ->
      reaches (VObj c) pre owner ->
      _get_property_value c (VStr p) =
        match node_attr owner last, owner with
        | Some x, _ => Ok x
        | None, VDict d =>
            match d !! last with
            | Some x => Ok x
            | None => Raise (KeyError last)
            end
        | None, _ => Ok VNone
        end) /\
  (forall e, _get_property_value c (VStr p) = Raise e <->
             exists k, e = KeyError k /\ missing_key (VObj c) (split_dots p) k).
Proof.
  intros _. unfold _get_property_value. split.
  - intros pre last owner Hp Hr. rewrite Hp. by apply get_walk_reaches.
  - intros e. split.
    + intros He.
      destruct (get_walk_cases (split_dots p) (VObj c)) as [[v Hok] | (k & Hk & Hm)];
        [congruence|].
      exists k. split; [congruence | exact Hm].
    + intros (k & -> & Hm). by apply get_walk_missing_key.
Qed.

Lemma get_property_value_no_raise_witness :
  _get_property_value author_view (VStr "bogus.author.name") = Ok (VStr "Neil") /\
  _get_property_value author_view (VStr "author.bogus") = Ok VNone /\
  _get_property_value author_view (VStr "tags.colour") = Raise (KeyError "colour").
Proof.
  split; [|split].
  - destruct (get_property_value_no_raise bare author_view "bogus.author.name" eq_refl)
      as [Hget _].
    rewrite (Hget ["bogus"; "author"] "name" (VObj (<["name" := VStr "Neil"]> ∅)) eq_refl).
    + reflexivity.
    + apply rc_skip; [reflexivity | reflexivity |].
      eapply rc_attr; [reflexivity|]. apply rc_nil.
  - destruct (get_property_value_no_raise bare author_view "author.bogus" eq_refl)
      as [Hget _].
    rewrite (Hget ["author"] "bogus" (VObj (<["name" := VStr "Neil"]> ∅)) eq_refl).
    + reflexivity.
    + eapply rc_attr; [reflexivity|]. apply rc_nil.
  - destruct (get_property_value_no_raise bare author_view "tags.colour" eq_refl)
      as [Hget _].
    rewrite (Hget ["tags"] "colour" (VDict ∅) eq_refl).
    + reflexivity.
    + eapply rc_attr; [reflexivity|]. apply rc_nil.
Defined.

(** C2, as stated, fails twice over.  A key missing from a dict raises
    [KeyError], whether the dict is met at the last segment or in
    mid-traversal; and an unresolvable segment does not make the result
    absent: [bogus] is skipped and the get returns the component's [name]. *)
Lemma get_missing_key_raises :
  _get_property_value author_view (VStr "tags.color") = Raise (KeyError "color") /\
  _get_property_value author_view (VStr "tags.color.shade") = Raise (KeyError "color") /\
  _get_property_value author_view (VStr "bogus.name") = Ok (VStr "view").
Proof. repeat split; vm_compute; reflexivity. Qed.

Lemma node_setattr_same node part child :
  node_attr node part = Some child -> node_setattr node part child = node.
Proof.
  destruct node; simpl; try discriminate. intros H. by rewrite insert_id.
Qed.

Lemma shadow_reattach_same (sd : gmap string value) part :
  shadow_reattach (VDict sd) part (default (VDict ∅) (sd !! part)) = VDict sd.
Proof.
  simpl. destruct (sd !! part) eqn:H; simpl; [|reflexivity]. by rewrite insert_id.
Qed.

Lemma set_walk_all_unresolvable E full v node sh rest : forall b,
  is_dict node = false ->
  Forall (fun s => node_attr node s = None) rest ->
  set_walk E full b node sh rest v = Ok (node, sh, []).
Proof.
  intros b Hnd Hall. induction Hall as [|s rest Hs _ IH]; simpl; [reflexivity|].
  rewrite Hs. destruct node; try exact IH. discriminate Hnd.
Qed.

Lemma set_walk_attr_step E full b node sh part rest v child :
  node_attr node part = Some child -> rest <> [] ->
  set_walk E full b node sh (part :: rest) v =
    (let* sub := shadow_get sh part in
     let* (child', sub', ev) := set_walk E full false child sub rest v in
     Ok (node_setattr node part child', shadow_reattach sh part sub', ev)).
Proof. intros H Hr. simpl. rewrite H. destruct rest; [done | reflexivity]. Qed.

Lemma set_walk_key_step E full b d sh part rest v child :
  d !! part = Some child -> rest <> [] ->
  set_walk E full b (VDict d) sh (part :: rest) v =
    (let* sub := shadow_get sh part in
     let* (child', sub', ev) := set_walk E full false child sub rest v in
     Ok (VDict (<[part := child']> d), shadow_reattach sh part sub', ev)).
Proof. intros H Hr. simpl. rewrite H. destruct rest; [done | reflexivity]. Qed.

Lemma set_walk_prefix_noop E full v rest node sh pre n sh' :
  walks_to node sh pre n sh' ->
  rest <> [] ->
  (forall b, set_walk E full b n sh' rest v = Ok (n, sh', [])) ->
  forall b, set_walk E full b node sh (pre ++ rest) v = Ok (node, sh, []).
Proof.
  intros Hw Hrest Hend.
  induction Hw as [node sh | node sd part child pre n sh Hattr Hw IH
                   | d sd part child pre n sh Hd Hw IH]; intros b.
  - apply Hend.
  - rewrite <- app_comm_cons,
      (set_walk_attr_step _ _ _ _ _ _ _ _ _ Hattr (app_not_nil pre rest Hrest)).
    cbn [shadow_get bind]. rewrite (IH Hend false). cbn [bind].
    by rewrite (node_setattr_same _ _ _ Hattr), shadow_reattach_same.
  - rewrite <- app_comm_cons,
      (set_walk_key_step _ _ _ _ _ _ _ _ _ Hd (app_not_nil pre rest Hrest)).
    cbn [shadow_get bind]. rewrite (IH Hend false). cbn [bind].
    by rewrite (insert_id _ _ _ Hd), shadow_reattach_same.
Qed.

(** C4 (as the code has it): a set of a value other than [None] on a path
    of field names, for a class whose generic hooks are inert.  When the
    walk has followed the segments [pre], each by attribute or by key and
    with the shadow data a dict at each position passed, to a current node
    that is not a keyed container, and neither the next segment nor any
    later one is an attribute of that node, the set raises no error and
    leaves the component state and the shadow data unchanged; the generic
    hooks are all that runs.  An unresolvable segment is skipped: the walk
    goes on from the same node with the next segment. *)
Theorem set_unresolvable_is_noop (E : collaborators) (c : component) (data : value)
        (p : string) (pre rest : list string) (node sh v : value) :
  plain_walk E true (VObj c) (split_dots p) = true ->
  inert E "updating" ->
  inert E "updated" ->
  split_dots p = pre ++ rest ->
  walks_to (VObj c) data pre node sh ->
  is_dict node = false ->
  rest <> [] ->
  Forall (fun s => node_attr node s = None) rest ->
  v <> VNone ->
  _set_property_value E c (VStr p) v data =
    Ok (c, data, [Hook "updating" [VStr p; v]; Hook "updated" [VStr p; v]]).
Proof.
  intros _ _ _ Hp Hw Hnd Hrest Hall Hv. unfold _set_property_value.
  rewrite Hp.
  rewrite (set_walk_prefix_noop E p v rest _ _ _ _ _ Hw Hrest
             (fun b => set_walk_all_unresolvable E p v node sh rest b Hnd Hall) true).
  destruct v; try reflexivity. by destruct Hv.
Qed.

Lemma set_unresolvable_is_noop_witness :
  _set_property_value bare author_view (VStr "author.publisher.city") (VStr "Oslo")
                      (VDict (<["author" := VDict ∅]> ∅)) =
    Ok (author_view, VDict (<["author" := VDict ∅]> ∅),
        [Hook "updating" [VStr "author.publisher.city"; VStr "Oslo"];
         Hook "updated" [VStr "author.publisher.city"; VStr "Oslo"]]).
Proof.
  apply (set_unresolvable_is_noop bare author_view _ "author.publisher.city"
           ["author"] ["publisher"; "city"]
           (VObj (<["name" := VStr "Neil"]> ∅)) (VDict ∅)).
  - reflexivity.
  - apply bare_inert.
  - apply bare_inert.
  - reflexivity.
  - eapply wt_attr; [reflexivity|]. apply wt_nil.
  - reflexivity.
  - discriminate.
  - repeat constructor.
  - discriminate.
Defined.

(** C4, as stated, fails in three ways.  The segment [bogus] is not an
    attribute of the component, which is not a keyed container, and the set
    writes [name]: the later segment is applied to the same node.  A set of
    [None] is refused with an error, whatever the path.  And when the shadow
    data is no dict at a position the walk passes, the set raises before it
    comes to the unresolvable segment. *)
Lemma set_skips_unresolvable_and_writes :
  (_set_property_value bare author_view (VStr "bogus.name") (VStr "X") (VDict ∅) =
     Ok (<["name" := VStr "X"]> author_view, VDict (<["name" := VStr "X"]> ∅),
         [Hook "updating" [VStr "bogus.name"; VStr "X"];
          Hook "updated" [VStr "bogus.name"; VStr "X"]])
   /\ <["name" := VStr "X"]> author_view <> author_view) /\
  _set_property_value bare author_view (VStr "author.publisher.city") VNone (VDict ∅) =
    Raise (AssertionError "Property value is required") /\
  _set_property_value bare address_view (VStr "author.address.bogus") (VStr "X")
                      (VDict (<["author" := VStr "flat"]> ∅)) =
    Raise (AttributeError "object has no attribute 'get'").
Proof.
  split; [split|split]; try (vm_compute; reflexivity).
  intros H. apply (f_equal (fun m => m !! "name")) in H. vm_compute in H. discriminate H.
Qed.





(** ** Properties of the action dispatcher *)

Lemma py_eq_str t s : py_eq t (VStr s) = true <-> t = VStr s.
Proof.
  destruct t; simpl; try (split; [discriminate | discriminate]).
  rewrite bool_decide_eq_true. split; [intros -> | intros [= ->]]; reflexivity.
Qed.


Lemma apply_actions_app E id name pre q : forall st,
  apply_actions E id name st (pre ++ q) =
    (let* st1 := apply_actions E id name st pre in apply_actions E id name st1 q).
Proof.
  induction pre as [|a pre IH]; intros st; simpl; [reflexivity|].
  destruct (apply_action E id name st a); simpl; [apply IH | reflexivity].
Qed.


Lemma sort_by_epoch_single r : sort_by_epoch [r] = [r].
Proof. reflexivity. Qed.



Lemma with_component_same st :
  with_component st (st_component st) (st_world st) [] = st.
Proof. destruct st. unfold with_component. simpl. by rewrite app_nil_r. Qed.

Lemma apply_action_db_input E id name st a :
  action_type a = VStr "dbInput" ->
  apply_action E id name st a =
    (let* w' := apply_db_input (st_component st) (st_world st) (action_payload a) in
     Ok (with_component st (st_component st) w' [])).
Proof. intros H. unfold apply_action. rewrite H. reflexivity. Qed.

(** C9: a [dbInput] action whose record type resolves to a persisted-record
    type and whose fields are empty touches neither the record store nor
    anything else, raises no error, and the loop goes on with the next
    action. *)
Theorem db_input_without_fields_is_noop (E : collaborators) (id name : string)
        (st : dstate) (a : action) (q : list action)
        (pk : value) (cn : string) (alias : option nat) (fields : value) :
  action_type a = VStr "dbInput" ->
  db_input_resolves (st_component st) (st_world st) (action_payload a)
                    pk (VClass cn true) alias fields ->
  truthy fields = false ->
  apply_action E id name st a = Ok st /\
  apply_db_input (st_component st) (st_world st) (action_payload a) = Ok (st_world st) /\
  apply_actions E id name st (a :: q) = apply_actions E id name st q.
Proof.
  intros Htype (model & nm & Hdec) Hempty.
  assert (Hdb : apply_db_input (st_component st) (st_world st) (action_payload a)
                = Ok (st_world st)).
  { unfold apply_db_input. rewrite Hdec. cbn [bind truthy negb]. by rewrite Hempty. }
  assert (Hact : apply_action E id name st a = Ok st).
  { rewrite (apply_action_db_input E id name st a Htype), Hdb. cbn [bind].
    by rewrite with_component_same. }
  repeat split; [exact Hact | exact Hdb |].
  cbn [apply_actions]. by rewrite Hact.
Qed.

Lemma db_input_without_fields_is_noop_witness :
  let a : action :=
    <["type" := VStr "dbInput"]>
      (<["payload" := VDict (<["db" := VDict (<["name" := VStr "book"]> ∅)]> ∅)]> ∅) in
  let st :=
    {| st_component := fresh_view; st_data := VDict ∅; st_return := None;
       st_reset := false; st_validate_all := false;
       st_world := {| meta := Some (Some [{| dm_name := VStr "book";
                                             dm_model_class := VClass "Book" true;
                                             dm_defaults := ∅ |}]);
                      db_ops := []; default_data := VDict ∅ |};
       st_events := [] |} in
  apply_action bare "7" "hello-world" st a = Ok st.
Proof.
  intros a st.
  refine (proj1 (db_input_without_fields_is_noop bare "7" "hello-world" st a []
                   VNone "Book" (Some 0%nat) (VDict ∅) _ _ _)).
  - reflexivity.
  - exists VNone, (VStr "book"). vm_compute. reflexivity.
  - reflexivity.
Defined.

Lemma truthy_dict_nonempty (f : gmap string value) : f <> ∅ -> truthy (VDict f) = true.
Proof. intros H. simpl. by rewrite bool_decide_eq_false_2. Qed.

Lemma db_input_merge c w payload pk cn i m l (f : gmap string value) :
  meta w = Some (Some l) ->
  l !! i = Some m ->
  db_input_resolves c w payload pk (VClass cn true) (Some i) (VDict f) ->
  f <> ∅ ->
  exists op,
    apply_db_input c w payload =
      Ok (add_db_op (set_meta w (<[i := replace_defaults m (f ∪ dm_defaults m)]> l)) op) /\
    op_fields op = f ∪ dm_defaults m.
Proof.
  intros Hmeta Hl (model & nm & Hdec) Hf.
  unfold apply_db_input. rewrite Hdec. cbn [bind]. cbn [truthy negb].
  change (negb (bool_decide (f = ∅))) with (truthy (VDict f)).
  rewrite (truthy_dict_nonempty f Hf).
  unfold aliased_defaults, store_defaults. rewrite Hmeta, Hl. cbn [fmap option_fmap option_map default].
  destruct (truthy pk); eexists; (split; [reflexivity|reflexivity]).
Qed.

(** C8: the merge of the declared defaults with the supplied fields of a
    [dbInput] action is written into the registry entry's own defaults,
    and a later [dbInput] action that resolves the same entry merges its
    fields over them. *)
Theorem db_input_defaults_persist (c : component) (w : world) (payload pk : value)
        (cn : string) (i : nat) (m : db_model) (l : list db_model)
        (f : gmap string value) :
  meta w = Some (Some l) ->
  l !! i = Some m ->
  db_input_resolves c w payload pk (VClass cn true) (Some i) (VDict f) ->
  f <> ∅ ->
  exists w',
    apply_db_input c w payload = Ok w' /\
    meta w' = Some (Some (<[i := replace_defaults m (f ∪ dm_defaults m)]> l)) /\
    forall c2 payload2 pk2 cn2 (f2 : gmap string value),
      db_input_resolves c2 w' payload2 pk2 (VClass cn2 true) (Some i) (VDict f2) ->
      f2 <> ∅ ->
      exists w'' op,
        apply_db_input c2 w' payload2 = Ok w'' /\
        db_ops w'' = db_ops w' ++ [op] /\
        op_fields op = f2 ∪ (f ∪ dm_defaults m).
Proof.
  intros Hmeta Hl Hres Hf.
  destruct (db_input_merge c w payload pk cn i m l f Hmeta Hl Hres Hf) as (op & Hrun & _).
  eexists. split; [exact Hrun|]. split; [reflexivity|].
  intros c2 payload2 pk2 cn2 f2 Hres2 Hf2.
  set (m' := replace_defaults m (f ∪ dm_defaults m)).
  set (w' := add_db_op (set_meta w (<[i := m']> l)) op) in *.
  assert (Hl' : <[i := m']> l !! i = Some m').
  { apply list_lookup_insert_eq. by eapply lookup_lt_Some. }
  destruct (db_input_merge c2 w' payload2 pk2 cn2 i m' (<[i := m']> l) f2
              eq_refl Hl' Hres2 Hf2) as (op2 & Hrun2 & Hop2).
  eexists _, op2. split; [exact Hrun2|]. split; [reflexivity | exact Hop2].
Qed.

Lemma db_input_defaults_persist_witness :
  exists w',
    apply_db_input fresh_view book_world
                   (db_input "book" (<["title" := VStr "Coraline"]> ∅)) = Ok w' /\
    meta w' = Some (Some [replace_defaults book_entry
                            (<["title" := VStr "Coraline"]> ∅ ∪ dm_defaults book_entry)]).
Proof.
  destruct (db_input_defaults_persist fresh_view book_world
              (db_input "book" (<["title" := VStr "Coraline"]> ∅)) VNone
              "Book" 0 book_entry [book_entry] (<["title" := VStr "Coraline"]> ∅))
    as (w' & Hrun & Hmeta & _).
  - reflexivity.
  - reflexivity.
  - exists VNone, (VStr "book"). vm_compute. reflexivity.
  - intros H. apply (f_equal (fun m => m !! "title")) in H. vm_compute in H.
    discriminate H.
  - exists w'. split; [exact Hrun | exact Hmeta].
Defined.

(** The supplied fields of one [dbInput] action, seen by the next. *)
Example db_input_defaults_leak :
  (let* w1 := apply_db_input fresh_view book_world
                (db_input "book" (<["title" := VStr "Coraline"]> ∅)) in
   let* w2 := apply_db_input fresh_view w1
                (db_input "book" (<["pages" := VInt 100]> ∅)) in
   Ok (op_fields <$> db_ops w2)) =
  Ok [<["title" := VStr "Coraline"]> (<["kind" := VStr "novel"]> ∅);
      <["pages" := VInt 100]> (<["title" := VStr "Coraline"]>
                              (<["kind" := VStr "novel"]> ∅))].
Proof. vm_compute. reflexivity. Qed.

(** Case analysis on a successful monadic computation. *)
Ltac bind_ok H :=
  repeat match type of H with
         | bind ?x _ = Ok _ =>
             let r := fresh "r" in
             let Hr := fresh "Hr" in
             destruct x as [r|] eqn:Hr; cbn [bind] in H; [|discriminate H]
         | (let '(_, _) := ?x in _) = Ok _ => destruct x
         | (if ?b then _ else _) = Ok _ => destruct b eqn:?; try discriminate H
         | match ?x with _ => _ end = Ok _ => destruct x eqn:?; try discriminate H
         end.

Lemma apply_action_call_method E id name st a :
  action_type a = VStr "callMethod" ->
  apply_action E id name st a = apply_call_method E id name st (action_payload a).
Proof. intros H. unfold apply_action. rewrite H. reflexivity. Qed.

Lemma apply_action_sync_input E id name st a :
  action_type a = VStr "syncInput" ->
  apply_action E id name st a = apply_sync_input E st (action_payload a).
Proof. intros H. unfold apply_action. rewrite H. reflexivity. Qed.

(** The kinds of action a successful step can have taken. *)
Lemma apply_action_kind E id name st a st' :
  apply_action E id name st a = Ok st' ->
  action_type a = VStr "syncInput" \/ action_type a = VStr "dbInput" \/
  action_type a = VStr "callMethod".
Proof.
  unfold apply_action. intros H.
  destruct (py_eq (action_type a) (VStr "syncInput")) eqn:H1;
    [left; by apply py_eq_str|].
  destruct (py_eq (action_type a) (VStr "dbInput")) eqn:H2;
    [right; left; by apply py_eq_str|].
  destruct (py_eq (action_type a) (VStr "callMethod")) eqn:H3;
    [right; right; by apply py_eq_str | discriminate H].
Qed.

Lemma apply_call_method_reset_sticky E id name st payload st' :
  apply_call_method E id name st payload = Ok st' ->
  st_reset st = true -> st_reset st' = true.
Proof.
  unfold apply_call_method. intros H Hreset.
  bind_ok H; injection H as <-; simpl; auto.
Qed.

Lemma apply_action_reset_sticky E id name st a st' :
  apply_action E id name st a = Ok st' ->
  st_reset st = true -> st_reset st' = true.
Proof.
  intros H Hreset.
  destruct (apply_action_kind _ _ _ _ _ _ H) as [Hk | [Hk | Hk]].
  - rewrite (apply_action_sync_input _ _ _ _ _ Hk) in H. unfold apply_sync_input in H.
    bind_ok H. injection H as <-. exact Hreset.
  - rewrite (apply_action_db_input _ _ _ _ _ Hk) in H.
    bind_ok H. injection H as <-. exact Hreset.
  - rewrite (apply_action_call_method _ _ _ _ _ Hk) in H.
    by eapply apply_call_method_reset_sticky.
Qed.

Lemma apply_actions_reset_sticky E id name q : forall st st',
  apply_actions E id name st q = Ok st' ->
  st_reset st = true -> st_reset st' = true.
Proof.
  induction q as [|a q IH]; intros st st' H Hreset; simpl in H.
  - by injection H as <-.
  - destruct (apply_action E id name st a) as [st1|] eqn:Ha; [|discriminate H].
    simpl in H. eapply IH; [exact H|]. by eapply apply_action_reset_sticky.
Qed.

Lemma add_return_lookup_other E o res k :
  k <> "return" -> k <> "redirect" -> k <> "poll" ->
  add_return E o res !! k = res !! k.
Proof.
  intros H1 H2 H3. unfold add_return, update_if. destruct o as [r|]; [|reflexivity].
  destruct (truthy (r_poll r)), (truthy (r_redirect r));
    repeat (rewrite lookup_insert_ne; [|congruence]); reflexivity.
Qed.

Lemma add_return_lookup_return E o res :
  res !! "return" = None ->
  add_return E o res !! "return" = get_data E <$> o.
Proof.
  intros Hres. unfold add_return, update_if. destruct o as [r|]; [|exact Hres].
  destruct (truthy (r_poll r)), (truthy (r_redirect r));
    repeat (rewrite lookup_insert_ne; [|discriminate]);
    by rewrite lookup_insert_eq.
Qed.

(** The envelope a successful [finish] builds, key by key. *)
Lemma finish_envelope E id od st p :
  finish E id od st = Ok p ->
  p_validated p = negb (st_reset st) /\
  p_envelope p !! "errors" = fst (post_validate E st od (frontend_context E (st_component st)))
                               !! "errors" /\
  p_envelope p !! "return" = get_data E <$> st_return st.
Proof.
  unfold finish. intros H.
  destruct (post_validate E st od (frontend_context E (st_component st)))
    as [c validated] eqn:Hpv.
  assert (Hv : validated = negb (st_reset st)).
  { unfold post_validate in Hpv. destruct (st_reset st); simpl in Hpv.
    - by injection Hpv as _ <-.
    - destruct (st_validate_all st); by injection Hpv as _ <-. }
  unfold getattr in H at 1.
  destruct (c !! "errors") as [errors|] eqn:Herr; [|discriminate H].
  cbn [bind] in H.
  destruct (parent_entry E c) as [parent|]; [|discriminate H]. cbn [bind] in H.
  injection H as <-. cbn [p_validated p_envelope fst].
  split; [exact Hv|].
  destruct parent as [pv|].
  - rewrite !lookup_insert_ne by discriminate.
    rewrite add_return_lookup_other by discriminate.
    rewrite add_return_lookup_return
      by (repeat (rewrite lookup_insert_ne; [|discriminate]); apply lookup_empty).
    split; [|reflexivity].
    repeat (rewrite lookup_insert_ne; [|discriminate]). by rewrite lookup_insert_eq.
  - rewrite add_return_lookup_other by discriminate.
    rewrite add_return_lookup_return
      by (repeat (rewrite lookup_insert_ne; [|discriminate]); apply lookup_empty).
    split; [|reflexivity].
    repeat (rewrite lookup_insert_ne; [|discriminate]). by rewrite lookup_insert_eq.
Qed.

Lemma apply_action_reset E id name st a :
  is_reset_call E a ->
  exists st',
    apply_action E id name st a = Ok st' /\
    st_reset st' = true /\
    st_component st' !! "errors" = Some (VDict ∅).
Proof.
  intros (Htype & cmn & params & Hname & Hne & Hparse & Hsetter).
  rewrite (apply_action_call_method _ _ _ _ _ Htype). unfold apply_call_method.
  rewrite Hname. cbn [bind truthy].
  destruct (String.eqb_spec cmn "") as [->|_]; [done|]. cbn [negb].
  rewrite Hparse. cbn [bind]. rewrite Hsetter. cbn [String.eqb Ascii.eqb Bool.eqb].
  eexists. split; [reflexivity|]. split; [reflexivity|].
  cbn [st_component with_component]. apply lookup_insert_eq.
Qed.

(** C3 (as the code has it): a request whose action queue holds a
    [$reset] call skips the validation step of PostProcessing, whatever else
    the queue holds; the errors are cleared when [$reset] is processed, and
    the envelope carries an empty errors map when [$reset] is the last
    action of the queue. *)
Theorem reset_skips_validation (E : collaborators) (fuel : nat) (w : world)
        (name : string) (req : ComponentRequest) (pre post : list action)
        (a : action) (p : pass) :
  cr_action_queue req = pre ++ a :: post ->
  is_reset_call E a ->
  _process_component_request E fuel w name req = Ok p ->
  p_validated p = false /\
  (post = [] -> p_envelope p !! "errors" = Some (VDict ∅)).
Proof.
  intros Hq Hreset H. unfold _process_component_request in H.
  destruct (hydrated_state E fuel w name req) as [st0|]; [|discriminate H].
  cbn [bind] in H. rewrite Hq, apply_actions_app in H.
  destruct (apply_actions E (cr_id req) name st0 pre) as [st1|]; [|discriminate H].
  cbn [bind apply_actions] in H.
  destruct (apply_action_reset E (cr_id req) name st1 a Hreset)
    as (st2 & Ha & Hr2 & Herr2).
  rewrite Ha in H. cbn [bind] in H.
  destruct (apply_actions E (cr_id req) name st2 post) as [st3|] eqn:Hpost;
    [|discriminate H].
  cbn [bind] in H.
  pose proof (apply_actions_reset_sticky _ _ _ _ _ _ Hpost Hr2) as Hr3.
  destruct (finish_envelope _ _ _ _ _ H) as (Hv & Herr & _).
  split; [by rewrite Hv, Hr3|].
  intros ->. simpl in Hpost. injection Hpost as <-.
  rewrite Herr. unfold post_validate. rewrite Hr2. exact Herr2.
Qed.

Lemma reset_skips_validation_witness :
  exists p,
    _process_component_request bare 1 empty_world "hello-world"
                               (request 1 [call_method "$reset"]) = Ok p /\
    p_validated p = false /\
    p_envelope p !! "errors" = Some (VDict ∅).
Proof.
  eexists. split; [vm_compute; reflexivity|].
  refine ((fun H => conj (proj1 H) (proj2 H eq_refl))
            (reset_skips_validation bare 1 empty_world "hello-world"
               (request 1 [call_method "$reset"]) [] [] (call_method "$reset") _ _ _ _)).
  - reflexivity.
  - split; [reflexivity|]. exists "$reset", []. repeat split; try reflexivity.
    discriminate.
  - vm_compute. reflexivity.
Defined.

(** C3, as stated, fails for the errors map: a method called after
    [$reset] in the same queue records an error, and the envelope carries
    it (validation is skipped all the same). *)
Lemma errors_after_reset :
  exists p,
    _process_component_request saving 1 empty_world "hello-world"
      (request 1 [call_method "$reset"; call_method "save"]) = Ok p /\
    p_envelope p !! "errors" = Some name_required /\
    p_validated p = false.
Proof. eexists. split; [vm_compute; reflexivity|]. split; vm_compute; reflexivity. Qed.

Lemma apply_action_keeps_return E id name st a st' :
  action_type a <> VStr "callMethod" ->
  apply_action E id name st a = Ok st' ->
  st_return st' = st_return st.
Proof.
  intros Hk H.
  destruct (apply_action_kind _ _ _ _ _ _ H) as [Hs | [Hd | Hc]]; [| |contradiction].
  - rewrite (apply_action_sync_input _ _ _ _ _ Hs) in H. unfold apply_sync_input in H.
    bind_ok H. by injection H as <-.
  - rewrite (apply_action_db_input _ _ _ _ _ Hd) in H.
    bind_ok H. by injection H as <-.
Qed.

Lemma apply_actions_keep_return E id name q : forall st st',
  Forall (fun a => action_type a <> VStr "callMethod") q ->
  apply_actions E id name st q = Ok st' ->
  st_return st' = st_return st.
Proof.
  induction q as [|a q IH]; intros st st' Hall H; simpl in H.
  - by injection H as <-.
  - destruct (apply_action E id name st a) as [st1|] eqn:Ha; [|discriminate H].
    simpl in H. inversion Hall as [|? ? Hk Hall']; subst.
    rewrite (IH _ _ Hall' H). by eapply apply_action_keeps_return.
Qed.

Lemma apply_call_method_overwrites E id name st o payload :
  apply_call_method E id name (set_return st o) payload =
    apply_call_method E id name st payload.
Proof. reflexivity. Qed.

Lemma apply_call_method_returns E id name st payload st' :
  apply_call_method E id name st payload = Ok st' -> is_Some (st_return st').
Proof.
  unfold apply_call_method. intros H.
  bind_ok H; injection H as <-; simpl; eauto.
Qed.

(** C10: the envelope's return key is the pending return value left by the
    last [callMethod] action of the queue: that action sets it whatever was
    pending before, other actions leave it as it is, and without any
    [callMethod] action the key is absent. *)
Theorem return_is_last_call_method (E : collaborators) (fuel : nat) (w : world)
        (name : string) (req : ComponentRequest) (p : pass) :
  _process_component_request E fuel w name req = Ok p ->
  (Forall (fun a => action_type a <> VStr "callMethod") (cr_action_queue req) ->
   p_envelope p !! "return" = None) /\
  (forall pre a post,
     cr_action_queue req = pre ++ a :: post ->
     action_type a = VStr "callMethod" ->
     Forall (fun x => action_type x <> VStr "callMethod") post ->
     exists st0 st1 st2 r,
       hydrated_state E fuel w name req = Ok st0 /\
       apply_actions E (cr_id req) name st0 pre = Ok st1 /\
       apply_action E (cr_id req) name st1 a = Ok st2 /\
       (forall o, apply_action E (cr_id req) name (set_return st1 o) a = Ok st2) /\
       st_return st2 = Some r /\
       p_envelope p !! "return" = Some (get_data E r)) /\
  (forall st a st',
     action_type a <> VStr "callMethod" ->
     apply_action E (cr_id req) name st a = Ok st' ->
     st_return st' = st_return st).
Proof.
  intros H. unfold _process_component_request in H.
  destruct (hydrated_state E fuel w name req) as [st0|] eqn:Hhyd; [|discriminate H].
  cbn [bind] in H.
  destruct (apply_actions E (cr_id req) name st0 (cr_action_queue req)) as [st|] eqn:Hrun;
    [|discriminate H].
  cbn [bind] in H. destruct (finish_envelope _ _ _ _ _ H) as (_ & _ & Hret).
  split; [|split].
  - intros Hall. rewrite Hret, (apply_actions_keep_return _ _ _ _ _ _ Hall Hrun).
    unfold hydrated_state in Hhyd. bind_ok Hhyd. by injection Hhyd as <-.
  - intros pre a post Hq Hk Hpost. rewrite Hq, apply_actions_app in Hrun.
    destruct (apply_actions E (cr_id req) name st0 pre) as [st1|] eqn:Hpre;
      [|discriminate Hrun].
    cbn [bind apply_actions] in Hrun.
    destruct (apply_action E (cr_id req) name st1 a) as [st2|] eqn:Ha; [|discriminate Hrun].
    cbn [bind] in Hrun.
    pose proof Ha as Hcm. rewrite (apply_action_call_method _ _ _ _ _ Hk) in Hcm.
    destruct (apply_call_method_returns _ _ _ _ _ _ Hcm) as [r Hr].
    exists st0, st1, st2, r.
    split; [reflexivity|]. split; [exact Hpre|]. split; [exact Ha|].
    split; [|split; [exact Hr|]].
    + intros o. by rewrite (apply_action_call_method _ _ _ _ _ Hk),
                  apply_call_method_overwrites.
    + by rewrite Hret, (apply_actions_keep_return _ _ _ _ _ _ Hpost Hrun), Hr.
  - intros st1 a st' Hk Ha. by eapply apply_action_keeps_return.
Qed.

Lemma return_is_last_call_method_witness :
  exists p,
    _process_component_request bare 1 empty_world "hello-world"
      (request 1 [call_method "first"; call_method "second";
                  sync_input "count" (VInt 2)]) = Ok p /\
    p_envelope p !! "return" =
      Some (return_data_of (Return_set_value bare (new_Return "second" []) VNone)).
Proof.
  destruct (_process_component_request bare 1 empty_world "hello-world"
      (request 1 [call_method "first"; call_method "second";
                  sync_input "count" (VInt 2)])) as [p|e] eqn:Hp;
    [|vm_compute in Hp; discriminate Hp].
  exists p. split; [reflexivity|].
  destruct (proj1 (proj2 (return_is_last_call_method bare 1 empty_world "hello-world"
              (request 1 [call_method "first"; call_method "second";
                          sync_input "count" (VInt 2)]) p Hp))
              [call_method "first"] (call_method "second")
              [sync_input "count" (VInt 2)] eq_refl eq_refl)
    as (st0 & st1 & st2 & r & H0 & H1 & H2 & _ & Hr & Henv).
  - repeat constructor. discriminate.
  - vm_compute in H0. injection H0 as <-.
    vm_compute in H1. injection H1 as <-.
    vm_compute in H2. injection H2 as <-.
    vm_compute in Hr. injection Hr as <-.
    rewrite Henv. vm_compute. reflexivity.
Defined.

(** ** Properties of the request coordinator *)

(** C5: a request that is not alone in the stored queue right after being
    appended to it is answered with the acknowledgment
    [{queued: true, epoch, original_epoch}], carrying its own epoch and the
    epoch of the first request of the stored queue; the dispatcher is not
    invoked, whatever it is: no pass is logged and the state it acts on is
    as it was. *)
Theorem not_sole_occupant_is_queued
        (process : world -> string -> ComponentRequest -> result pass)
        (fuel : nat) (arrivals : list (list ComponentRequest)) (s : cstate)
        (name : string) (req first : ComponentRequest) (rest : list ComponentRequest) :
  cache s !! (name +:+ ":" +:+ cr_id req) = Some (first :: rest) ->
  exists s',
    _handle_component_request process fuel arrivals s name req =
      Ok (<["queued" := VBool true]>
            (<["epoch" := VInt (cr_epoch req)]>
            (<["original_epoch" := VInt (cr_epoch first)]> ∅)), s') /\
    cache s' = <[name +:+ ":" +:+ cr_id req := first :: rest ++ [req]]> (cache s) /\
    passes s' = passes s /\
    c_world s' = c_world s.
Proof.
  intros Hq. unfold _handle_component_request, submit. rewrite Hq.
  cbn [default from_option id]. rewrite <- app_comm_cons.
  assert (Hlen : (1 <? List.length (first :: rest ++ [req]))%nat = true).
  { apply Nat.ltb_lt. cbn [List.length]. rewrite length_app. simpl. lia. }
  rewrite Hlen. eexists. split; [reflexivity|]. repeat split.
Qed.

Lemma not_sole_occupant_is_queued_witness :
  exists s',
    _handle_component_request (_process_component_request bare 1) 1 []
      (cache_set idle "hello-world:7" [request 1 []]) "hello-world" (request 2 []) =
      Ok (<["queued" := VBool true]>
            (<["epoch" := VInt 2]> (<["original_epoch" := VInt 1]> ∅)), s') /\
    cache s' !! "hello-world:7" = Some [request 1 []; request 2 []] /\
    passes s' = [].
Proof.
  destruct (not_sole_occupant_is_queued (_process_component_request bare 1) 1 []
              (cache_set idle "hello-world:7" [request 1 []]) "hello-world"
              (request 2 []) (request 1 []) [])
    as (s' & Hrun & Hcache & Hpasses & _).
  - reflexivity.
  - exists s'. split; [exact Hrun|]. split; [|exact Hpasses].
    rewrite Hcache. apply lookup_insert_eq.
Defined.

Lemma merge_requests_alone r : merge_requests r [] = r.
Proof. destruct r. unfold merge_requests. simpl. by rewrite app_nil_r. Qed.

(** The drain, one call unfolded. *)
Lemma drain_unfold process fuel arrivals s component_name component_cache_key :
  _handle_component_requests process (S fuel) arrivals s component_name
                             component_cache_key =
    match cache s !! component_cache_key with
    | None => Raise (TypeError "'NoneType' object is not iterable")
    | Some component_requests =>
        match sort_by_epoch component_requests with
        | [] => Raise (IndexError "list index out of range")
        | first_component_request :: _ =>
            let* p := process (c_world s) component_name first_component_request in
            let s := land {| cache := cache s; c_world := p_world p;
                             passes := passes s ++ [first_component_request] |}
                          component_cache_key (hd [] arrivals) in
            match cache s !! component_cache_key with
            | None => Raise (AttributeError "'NoneType' object has no attribute 'pop'")
            | Some [] => Raise (IndexError "pop from empty list")
            | Some [_] => Ok (p_envelope p, cache_set s component_cache_key [])
            | Some (_ :: (first_remaining :: others) as component_requests) =>
                let* (new_json_result, s) :=
                  submit (_handle_component_requests process fuel (tl arrivals))
                         (cache_set (cache_set s component_cache_key component_requests)
                                    component_cache_key [])
                         component_name (merge_requests first_remaining others) in
                Ok (<["return" := VList [json_get (p_envelope p) "return";
                                         json_get new_json_result "return"]]>
                      new_json_result, s)
            end
        end
    end.
Proof.
  cbn [_handle_component_requests].
  destruct (cache s !! component_cache_key) as [q|]; [|reflexivity].
  destruct (sort_by_epoch q) as [|first_component_request ?]; [reflexivity|].
  destruct (process (c_world s) component_name first_component_request) as [p|];
    [|reflexivity].
  cbn [bind].
  destruct (cache (land {| cache := cache s; c_world := p_world p;
                           passes := passes s ++ [first_component_request] |}
                        component_cache_key (hd [] arrivals)) !! component_cache_key)
    as [[|x [|y others]]|]; reflexivity.
Qed.

(** A drain that finds one request and sees none arrive. *)
Lemma drain_single process fuel arrivals s name key r p :
  cache s !! key = Some [r] ->
  hd [] arrivals = [] ->
  process (c_world s) name r = Ok p ->
  _handle_component_requests process (S fuel) arrivals s name key =
    Ok (p_envelope p,
        cache_set {| cache := cache s; c_world := p_world p; passes := passes s ++ [r] |}
                  key []).
Proof.
  intros Hq Harr Hp. rewrite drain_unfold, Hq. cbn [sort_by_epoch insert_by_epoch].
  rewrite Hp, Harr. cbn [bind land cache]. by rewrite Hq.
Qed.

(** A submission into an empty queue drains at once. *)
Lemma submit_alone drain s name r :
  default [] (cache s !! (name +:+ ":" +:+ cr_id r)) = [] ->
  submit drain s name r =
    drain (cache_set s (name +:+ ":" +:+ cr_id r) [r]) name (name +:+ ":" +:+ cr_id r).
Proof. intros Hq. unfold submit. by rewrite Hq. Qed.

(** With the queue holding two requests, the later epoch first, the drain
    runs the dispatcher on the request of the earlier epoch, pops the head of
    the stored queue (the request of the later epoch, never processed), and
    runs the dispatcher on the request of the earlier epoch again. *)
Lemma drain_pops_the_unprocessed_request
        (process : world -> string -> ComponentRequest -> result pass)
        (s : cstate) (name : string) (r1 r2 : ComponentRequest) (p1 p2 : pass) :
  cache s !! (name +:+ ":" +:+ cr_id r1) = Some [r2; r1] ->
  (cr_epoch r1 < cr_epoch r2)%Z ->
  process (c_world s) name r1 = Ok p1 ->
  process (p_world p1) name r1 = Ok p2 ->
  exists s',
    _handle_component_requests process 2 [] s name (name +:+ ":" +:+ cr_id r1) =
      Ok (<["return" := VList [json_get (p_envelope p1) "return";
                               json_get (p_envelope p2) "return"]]> (p_envelope p2), s') /\
    passes s' = passes s ++ [r1; r1] /\
    cache s' !! (name +:+ ":" +:+ cr_id r1) = Some [].
Proof.
  intros Hq Hlt Hp1 Hp2.
  rewrite drain_unfold, Hq. cbn [sort_by_epoch insert_by_epoch].
  destruct (Z.leb_spec (cr_epoch r2) (cr_epoch r1)) as [Hle|_]; [lia|].
  rewrite Hp1. cbn [bind hd land cache]. rewrite Hq.
  rewrite merge_requests_alone.
  rewrite submit_alone
    by (cbn [cache_set cache]; by rewrite lookup_insert_eq).
  erewrite drain_single;
    [| cbn [cache_set cache]; apply lookup_insert_eq | reflexivity | exact Hp2].
  cbn [bind]. eexists. split; [reflexivity|].
  cbn [cache_set cache passes]. split; [by rewrite <- app_assoc|].
  apply lookup_insert_eq.
Qed.

(** C1, on the code: with the queue holding the requests of epochs 2 and 1
    in this arrival order, the drain hands the request of epoch 1 to the
    dispatcher twice and the request of epoch 2 never; the envelope carries
    the result of epoch 1 twice. *)
Theorem drain_drops_the_request_of_epoch_2 :
  exists env s',
    _handle_component_requests (_process_component_request bare 1) 2 []
      (cache_set idle "hello-world:7" [epoch2; epoch1])
      "hello-world" "hello-world:7" = Ok (env, s') /\
    passes s' = [epoch1; epoch1] /\
    env !! "return" = Some (VList [result_of "first"; result_of "first"]).
Proof.
  destruct (_process_component_request bare 1 empty_world "hello-world" epoch1)
    as [p1|e] eqn:Hp1; [|vm_compute in Hp1; discriminate Hp1].
  destruct (_process_component_request bare 1 (p_world p1) "hello-world" epoch1)
    as [p2|e] eqn:Hp2;
    [|vm_compute in Hp1; injection Hp1 as <-; vm_compute in Hp2; discriminate Hp2].
  destruct (drain_pops_the_unprocessed_request (_process_component_request bare 1)
              (cache_set idle "hello-world:7" [epoch2; epoch1]) "hello-world"
              epoch1 epoch2 p1 p2 eq_refl eq_refl Hp1 Hp2)
    as (s' & Hrun & Hpasses & _).
  eexists _, s'. split; [exact Hrun|]. split; [exact Hpasses|].
  rewrite lookup_insert_eq.
  vm_compute in Hp1. injection Hp1 as <-.
  vm_compute in Hp2. injection Hp2 as <-.
  vm_compute. reflexivity.
Qed.

(** The other way two requests of epochs 2 and 1 meet: the request of epoch
    1 lands while the pass for the request of epoch 2 runs.  Epoch 2 is
    processed first. *)
Example late_arrival_is_processed_second :
  (let* (env, s') :=
     _handle_component_request (_process_component_request bare 1) 2 [[epoch1]]
                               idle "hello-world" epoch2 in
   Ok (passes s', env !! "return")) =
  Ok ([epoch2; epoch1], Some (VList [result_of "second"; result_of "first"])).
Proof. vm_compute. reflexivity. Qed.

(** ** Further properties of the path engine *)

Lemma set_walk_object_frame E full v parts : forall b (a : gmap string value) sh node' sh' ev,
  set_walk E full b (VObj a) sh parts v = Ok (node', sh', ev) ->
  exists a', node' = VObj a' /\ dom a' = dom a /\
             forall k, k ∉ parts -> a' !! k = a !! k.
Proof.
  induction parts as [|part rest IH]; intros b a sh node' sh' ev H.
  - injection H as <- _ _. eauto.
  - cbn [set_walk node_attr] in H. destruct (a !! part) as [child|] eqn:Hpart.
    + assert (Hdom : forall x, dom (<[part := x]> a) = dom a).
      { intros x. apply dom_insert_lookup_L. eauto. }
      assert (Hother : forall x k, k ∉ part :: rest -> <[part := x]> a !! k = a !! k).
      { intros x k Hk. apply lookup_insert_ne. intros ->. apply Hk. left. }
      destruct rest as [|r rest'].
      * destruct b; cbn [_set_property node_setattr] in H;
          destruct (shadow_setitem sh part v); try discriminate H;
          cbn [bind] in H; injection H as <- _ _; eauto.
      * destruct (shadow_get sh part) as [sub|]; [|discriminate H]. cbn [bind] in H.
        destruct (set_walk E full false child sub (r :: rest') v) as [[[child' sub'] ev']|];
          [|discriminate H].
        cbn [bind node_setattr] in H. injection H as <- _ _. eauto.
    + destruct (IH _ _ _ _ _ _ H) as (a' & -> & Hdom & Hother).
      exists a'. split; [reflexivity|]. split; [exact Hdom|].
      intros k Hk. apply Hother. intros Hin. apply Hk. by right.
Qed.

(** A successful set on a path of field names, for a class whose hooks on
    the path are inert, never adds an attribute to the component nor removes
    one, and leaves every attribute that is not named by a segment of the
    path as it was. *)
Theorem set_property_value_frame (E : collaborators) (c : component)
        (name : string) (v data : value) (c' : component) (data' : value)
        (ev : list event) :
  plain_walk E true (VObj c) (split_dots name) = true ->
  set_hooks_inert E name ->
  _set_property_value E c (VStr name) v data = Ok (c', data', ev) ->
  dom c' = dom c /\ forall k, k ∉ split_dots name -> c' !! k = c !! k.
Proof.
  unfold _set_property_value. intros _ _ H.
  destruct v; try discriminate H;
    (destruct (set_walk E name true (VObj c) data (split_dots name) _)
       as [[[node' sh'] ev']|] eqn:Hw; [|discriminate H];
     destruct (set_walk_object_frame _ _ _ _ _ _ _ _ _ _ Hw) as (a' & -> & Hdom & Hother);
     cbn [bind] in H; injection H as <- _ _; split; assumption).
Qed.

Lemma set_property_value_frame_witness :
  exists c' data' ev,
    _set_property_value bare author_view (VStr "author.name") (VStr "Neil Gaiman")
                        (VDict ∅) = Ok (c', data', ev) /\
    dom c' = dom author_view /\ c' !! "tags" = author_view !! "tags".
Proof.
  destruct (_set_property_value bare author_view (VStr "author.name")
              (VStr "Neil Gaiman") (VDict ∅)) as [[[c' data'] ev]|e] eqn:Hset;
    [|vm_compute in Hset; discriminate Hset].
  destruct (set_property_value_frame bare author_view "author.name" (VStr "Neil Gaiman")
              (VDict ∅) c' data' ev eq_refl (bare_set_hooks_inert _) Hset)
    as [Hdom Hother].
  exists c', data', ev. split; [reflexivity|]. split; [exact Hdom|].
  apply Hother. vm_compute. intros H.
  repeat (apply elem_of_cons in H as [H|H]; [discriminate H|]).
  by apply elem_of_nil in H.
Defined.

(** A set through a nested path whose first segment is an attribute of the
    component but is missing from the shadow data writes the component and
    leaves the shadow as it was: the dict that [get(part, {})] makes up for
    the missing key is attached nowhere. *)
Theorem set_does_not_grow_shadow (E : collaborators) (c : component)
        (name part : string) (rest : list string) (v : value)
        (sd : gmap string value) (c' : component) (data' : value) (ev : list event) :
  split_dots name = part :: rest ->
  rest <> [] ->
  is_Some (c !! part) ->
  sd !! part = None ->
  _set_property_value E c (VStr name) v (VDict sd) = Ok (c', data', ev) ->
  data' = VDict sd.
Proof.
  intros Hsplit Hrest [child Hchild] Hsd. unfold _set_property_value. rewrite Hsplit.
  rewrite (set_walk_attr_step E name true (VObj c) (VDict sd) part rest v child Hchild Hrest).
  cbn [shadow_get bind]. rewrite Hsd. cbn [default from_option].
  intros H.
  destruct v; try discriminate H;
    (destruct (set_walk E name false child (VDict ∅) rest _) as [[[child' sub'] ev']|];
       [|discriminate H];
     cbn [bind node_setattr shadow_reattach] in H; rewrite Hsd in H;
     by injection H as _ <- _).
Qed.

Lemma set_does_not_grow_shadow_witness :
  exists c' ev,
    _set_property_value bare author_view (VStr "author.name") (VStr "Neil Gaiman")
                        (VDict ∅) = Ok (c', VDict ∅, ev) /\
    _get_property_value c' (VStr "author.name") = Ok (VStr "Neil Gaiman").
Proof.
  destruct (_set_property_value bare author_view (VStr "author.name")
              (VStr "Neil Gaiman") (VDict ∅)) as [[[c' data'] ev]|e] eqn:Hset;
    [|vm_compute in Hset; discriminate Hset].
  rewrite (set_does_not_grow_shadow bare author_view "author.name" "author" ["name"]
             (VStr "Neil Gaiman") ∅ c' data' ev eq_refl ltac:(discriminate)
             ltac:(eexists; reflexivity) eq_refl Hset).
  exists c', ev. split; [reflexivity|].
  vm_compute in Hset. injection Hset as <- _ _. vm_compute. reflexivity.
Defined.



(** ** Further properties of the action dispatcher *)

Lemma set_top_level E c name v (sd : gmap string value) old :
  split_dots name = [name] ->
  c !! name = Some old ->
  v <> VNone ->
  _set_property_value E c (VStr name) v (VDict sd) =
    Ok (<[name := clean E name v]> c, VDict (<[name := v]> sd),
        [Hook "updating" [VStr name; v]] ++
        snd (_set_property E c name v) ++
        [Hook "updated" [VStr name; v]]).
Proof.
  intros Hsplit Hold Hv. unfold _set_property_value. rewrite Hsplit.
  cbn [set_walk node_attr]. rewrite Hold. cbn [_set_property shadow_setitem bind snd].
  destruct v; try reflexivity. by destruct Hv.
Qed.

Lemma get_top_level c name old :
  split_dots name = [name] -> c !! name = Some old ->
  _get_property_value c (VStr name) = Ok old.
Proof.
  intros Hsplit Hold. unfold _get_property_value. rewrite Hsplit.
  cbn [get_walk node_attr]. by rewrite Hold.
Qed.

Lemma toggle_once E c w name old (dd : gmap string value) :
  split_dots name = [name] ->
  c !! name = Some old ->
  default_data w = VDict dd ->
  (forall b, clean E name (VBool b) = VBool b) ->
  exists ev,
    toggle_all E c w [VStr name] =
      Ok (<[name := VBool (negb (truthy old))]> c,
          set_default_data w (VDict (<[name := VBool (negb (truthy old))]> dd)), ev).
Proof.
  intros Hsplit Hold Hdd Hclean. cbn [toggle_all].
  rewrite (get_top_level c name old Hsplit Hold). cbn [bind].
  unfold set_property_default. rewrite Hdd.
  rewrite (set_top_level E c name _ dd old Hsplit Hold) by discriminate.
  cbn [bind]. rewrite Hclean. eexists. reflexivity.
Qed.

(** [$toggle] writes the negation of the truth value of a top-level
    property, and toggling the property twice leaves its truth value, as a
    boolean, in place; the form's coercion is assumed to keep booleans, and
    the hooks of the class that a set of the property invokes to be inert. *)
Theorem toggle_flips_and_restores (E : collaborators) (c : component) (w : world)
        (name : string) (old : value) (dd : gmap string value) :
  set_hooks_inert E name ->
  split_dots name = [name] ->
  c !! name = Some old ->
  default_data w = VDict dd ->
  (forall b, clean E name (VBool b) = VBool b) ->
  (exists w' ev,
     toggle_all E c w [VStr name] =
       Ok (<[name := VBool (negb (truthy old))]> c, w', ev)) /\
  (exists w' ev,
     toggle_all E c w [VStr name; VStr name] =
       Ok (<[name := VBool (truthy old)]> c, w', ev)).
Proof.
  intros _ Hsplit Hold Hdd Hclean.
  destruct (toggle_once E c w name old dd Hsplit Hold Hdd Hclean) as [ev1 H1].
  split; [eauto|].
  set (c1 := <[name := VBool (negb (truthy old))]> c) in *.
  set (w1 := set_default_data w (VDict (<[name := VBool (negb (truthy old))]> dd))) in *.
  destruct (toggle_once E c1 w1 name (VBool (negb (truthy old))) _ Hsplit
              (lookup_insert_eq _ _ _) eq_refl Hclean) as [ev2 H2].
  change (toggle_all E c w [VStr name; VStr name]) with
    (let* property_value := _get_property_value c (VStr name) in
     let property_value := VBool (negb (truthy property_value)) in
     let* (c1, w1, ev1) := set_property_default E c w (VStr name) property_value in
     let* (c2, w2, ev2) := toggle_all E c1 w1 [VStr name] in
     Ok (c2, w2, ev1 ++ ev2)).
  cbn [toggle_all] in H1.
  destruct (_get_property_value c (VStr name)) as [pv|]; [|discriminate H1].
  cbn [bind] in H1 |- *.
  destruct (set_property_default E c w (VStr name) (VBool (negb (truthy pv))))
    as [[[c1' w1'] ev1']|]; [|discriminate H1].
  cbn [bind] in H1 |- *. injection H1 as -> -> _.
  rewrite H2. cbn [bind truthy]. rewrite negb_involutive.
  unfold c1. rewrite insert_insert_eq. eauto.
Qed.

Lemma toggle_flips_and_restores_witness :
  exists w' ev,
    toggle_all bare (<["open" := VBool true]> fresh_view) empty_world
               [VStr "open"; VStr "open"] =
      Ok (<["open" := VBool true]> (<["open" := VBool true]> fresh_view), w', ev).
Proof.
  exact (proj2 (toggle_flips_and_restores bare (<["open" := VBool true]> fresh_view)
                  empty_world "open" (VBool true) ∅ (bare_set_hooks_inert _)
                  eq_refl eq_refl eq_refl (fun b => eq_refl))).
Defined.

(** A [callMethod] action naming what the component does not expose (no
    method of the class, no data attribute, no underscore-prefixed name) is
    skipped without error: for a class whose [calling]/[called] hooks are
    inert, the component, the shadow data and the record store stay as they
    are, the two hooks are invoked, and the pending return value records
    the call with the value [None]. *)
Theorem missing_method_is_skipped (E : collaborators) (id name : string) (st : dstate)
        (a : action) (cmn m : string) (params : list value) :
  action_type a = VStr "callMethod" ->
  dict_get (action_payload a) "name" (VStr "") = Ok (VStr cmn) ->
  cmn <> "" ->
  parse_call_method_name E cmn = Ok (m, params) ->
  (if contains_eq cmn then parse_kwarg E cmn else None) = None ->
  m <> "$refresh" -> m <> "$reset" -> m <> "$toggle" -> m <> "$validate" ->
  method E m = None ->
  st_component st !! m = None ->
  private_name m = false ->
  inert E "calling" ->
  inert E "called" ->
  apply_action E id name st a =
    Ok {| st_component := st_component st; st_data := st_data st;
          st_return := Some {| r_method_name := m; r_params := params; r_value := VNone;
                               r_redirect := redirect_of E VNone;
                               r_poll := poll_of E VNone |};
          st_reset := st_reset st; st_validate_all := st_validate_all st;
          st_world := st_world st;
          st_events := st_events st ++ [Hook "calling" [VStr m; VList params];
                                        Hook "called" [VStr m; VList params]] |}.
Proof.
  intros Htype Hname Hne Hparse Hsetter H1 H2 H3 H4 Hmethod _ _ _ _.
  rewrite (apply_action_call_method _ _ _ _ _ Htype). unfold apply_call_method.
  rewrite Hname. cbn [bind truthy].
  destruct (String.eqb_spec cmn "") as [->|_]; [done|]. cbn [negb].
  rewrite Hparse. cbn [bind]. rewrite Hsetter.
  apply String.eqb_neq in H1, H2, H3, H4. rewrite H1, H2, H3, H4.
  unfold _call_method_name. rewrite Hmethod. reflexivity.
Qed.

Lemma missing_method_is_skipped_witness :
  exists st',
    apply_action bare "7" "hello-world"
      {| st_component := fresh_view; st_data := VDict ∅; st_return := None;
         st_reset := false; st_validate_all := false;
         st_world := empty_world; st_events := [] |}
      (call_method "increment") = Ok st' /\
    st_component st' = fresh_view.
Proof.
  eexists. split.
  - refine (missing_method_is_skipped bare "7" "hello-world" _ (call_method "increment")
              "increment" "increment" [] _ _ _ _ _ _ _ _ _ _ _ _
              (bare_inert _) (bare_inert _));
      try discriminate; reflexivity.
  - reflexivity.
Defined.

Lemma db_ops_store_defaults w alias d : db_ops (store_defaults w alias d) = db_ops w.
Proof.
  unfold store_defaults. destruct alias as [i|]; [|reflexivity].
  destruct (meta w) as [[l|]|]; try reflexivity. by destruct (l !! i).
Qed.

(** A [dbInput] action that resolves to a persisted-record type and
    carries fields makes exactly one call into the record store: an update
    of the row with the given key when a key is given, a create otherwise;
    the fields are the supplied ones over the declared defaults.  The
    component, the shadow data and the pending return value stay as they
    are. *)
Theorem db_input_makes_one_call (E : collaborators) (id name : string) (st : dstate)
        (a : action) (pk : value) (cn : string) (alias : option nat)
        (f : gmap string value) :
  action_type a = VStr "dbInput" ->
  db_input_resolves (st_component st) (st_world st) (action_payload a)
                    pk (VClass cn true) alias (VDict f) ->
  f <> ∅ ->
  exists st',
    apply_action E id name st a = Ok st' /\
    st_component st' = st_component st /\
    st_data st' = st_data st /\
    st_return st' = st_return st /\
    db_ops (st_world st') =
      db_ops (st_world st) ++
        [let fields := f ∪ aliased_defaults (st_world st) alias in
         if truthy pk then DbUpdate (VClass cn true) pk fields
         else DbCreate (VClass cn true) fields].
Proof.
  intros Htype (model & nm & Hdec) Hf.
  rewrite (apply_action_db_input E id name st a Htype). unfold apply_db_input.
  rewrite Hdec. cbn [bind]. cbn [truthy negb].
  change (negb (bool_decide (f = ∅))) with (truthy (VDict f)).
  rewrite (truthy_dict_nonempty f Hf).
  destruct (truthy pk); cbn [bind]; eexists; (split; [reflexivity|]);
    cbn [st_component st_data st_return st_world with_component add_db_op db_ops];
    by rewrite db_ops_store_defaults.
Qed.

Lemma db_input_makes_one_call_witness :
  exists st',
    apply_action bare "7" "hello-world"
      {| st_component := fresh_view; st_data := VDict ∅; st_return := None;
         st_reset := false; st_validate_all := false;
         st_world := book_world; st_events := [] |}
      (<["type" := VStr "dbInput"]>
         (<["payload" := db_input "book" (<["title" := VStr "Coraline"]> ∅)]> ∅)) = Ok st' /\
    db_ops (st_world st') =
      [DbCreate (VClass "Book" true)
                (<["title" := VStr "Coraline"]> (<["kind" := VStr "novel"]> ∅))].
Proof.
  destruct (db_input_makes_one_call bare "7" "hello-world"
      {| st_component := fresh_view; st_data := VDict ∅; st_return := None;
         st_reset := false; st_validate_all := false;
         st_world := book_world; st_events := [] |}
      (<["type" := VStr "dbInput"]>
         (<["payload" := db_input "book" (<["title" := VStr "Coraline"]> ∅)]> ∅))
      VNone "Book" (Some 0%nat) (<["title" := VStr "Coraline"]> ∅))
    as (st' & Hrun & _ & _ & _ & Hops).
  - reflexivity.
  - exists VNone, (VStr "book"). vm_compute. reflexivity.
  - intros H. apply (f_equal (fun m => m !! "title")) in H. vm_compute in H.
    discriminate H.
  - exists st'. split; [exact Hrun|]. rewrite Hops. vm_compute. reflexivity.
Defined.

Lemma dict_get_is_dict d key dflt v :
  dict_get d key dflt = Ok v -> exists m, d = VDict m.
Proof. destruct d; try discriminate. eauto. Qed.

(** A [dbInput] action that names neither a component field nor a registry
    entry (the names are absent, [None] or another falsy scalar) fails with
    the assertion message that no record type was found, whatever the
    component and its registry are. *)
Theorem db_input_unresolved_fails (c : component) (w : world)
        (payload model db db_model_name pk : value) :
  dict_get payload "model" VNone = Ok model ->
  dict_get payload "db" (VDict ∅) = Ok db ->
  dict_get db "name" VNone = Ok db_model_name ->
  dict_get db "pk" VNone = Ok pk ->
  truthy model = false ->
  truthy db_model_name = false ->
  is_scalar model = true ->
  is_scalar db_model_name = true ->
  apply_db_input c w payload =
    Raise (AssertionError ("Missing " +:+ py_str model +:+ ".model and " +:+
                           py_str db_model_name +:+ " in Meta.db_models")).
Proof.
  intros Hmodel Hdb Hname Hpk Hm Hn _ _.
  destruct (dict_get_is_dict _ _ _ _ Hmodel) as [pm ->].
  unfold apply_db_input, decode_db_input. rewrite Hmodel. cbn [bind].
  rewrite Hdb. cbn [bind]. rewrite Hname. cbn [bind]. rewrite Hpk. cbn [bind].
  unfold resolve_db_model. rewrite Hm. cbn [bind truthy negb andb]. rewrite Hn.
  reflexivity.
Qed.

Lemma db_input_unresolved_fails_witness :
  apply_db_input fresh_view book_world (VDict ∅) =
    Raise (AssertionError "Missing None.model and None in Meta.db_models").
Proof.
  exact (db_input_unresolved_fails fresh_view book_world (VDict ∅) VNone (VDict ∅)
           VNone VNone eq_refl eq_refl eq_refl eq_refl eq_refl eq_refl eq_refl eq_refl).
Defined.

(** Hydration passes over the keys of the request data that the component
    does not expose (no data attribute, no method of the class, no
    underscore-prefixed name): they are not set, and nothing is raised.  For
    a class whose [hydrate] hook is inert the component is as it was. *)
Theorem hydration_ignores_unknown_keys (E : collaborators) (fuel : nat)
        (c : component) (data : gmap string value) :
  fuel <> O ->
  inert E "hydrate" ->
  (forall k, is_Some (data !! k) -> hidden E true (VObj c) k = false) ->
  (forall k, is_Some (data !! k) -> c !! k = None) ->
  hydrate_from_data E fuel c data = Ok (c, [Hook "hydrate" []]).
Proof.
  intros Hfuel _ _. destruct fuel as [|fuel']; [done|]. unfold hydrate_from_data.
  match goal with
  | |- context [map_fold ?f ?b data] =>
      assert (Hfold : (forall k, is_Some (data !! k) -> c !! k = None) ->
                      map_fold f b data = Ok (VObj c, []));
        [apply (map_fold_weak_ind
                  (fun r m => (forall k, is_Some (m !! k) -> c !! k = None) ->
                              r = Ok (VObj c, [])) f b)|]
  end.
  - reflexivity.
  - intros i x m r Hi IH Hkeys.
    rewrite IH.
    + cbn [bind _set_property_from_data node_attr].
      rewrite (Hkeys i) by (rewrite lookup_insert_eq; eauto). reflexivity.
    + intros k Hk. apply Hkeys. destruct (decide (i = k)) as [->|Hne].
      * rewrite lookup_insert_eq. eauto.
      * by rewrite lookup_insert_ne.
  - intros Hkeys. by rewrite (Hfold Hkeys).
Qed.

Lemma hydration_ignores_unknown_keys_witness :
  hydrate_from_data bare 1 fresh_view (<["colour" := VStr "red"]> ∅) =
    Ok (fresh_view, [Hook "hydrate" []]).
Proof.
  apply (hydration_ignores_unknown_keys bare 1 fresh_view (<["colour" := VStr "red"]> ∅)).
  - discriminate.
  - apply bare_inert.
  - intros k [x Hx]. destruct (decide ("colour" = k)) as [<-|Hne].
    + reflexivity.
    + rewrite lookup_insert_ne in Hx by exact Hne. rewrite lookup_empty in Hx.
      discriminate Hx.
  - intros k [x Hx]. destruct (decide ("colour" = k)) as [<-|Hne].
    + reflexivity.
    + rewrite lookup_insert_ne in Hx by exact Hne. rewrite lookup_empty in Hx.
      discriminate Hx.
Defined.

Lemma finish_shape E id od st p :
  finish E id od st = Ok p ->
  p_envelope p !! "id" = Some (VStr id) /\
  is_Some (p_envelope p !! "dom") /\
  p_envelope p !! "data" = Some (VDict (frontend_context E (st_component st))) /\
  is_Some (p_envelope p !! "errors") /\
  (is_Some (p_envelope p !! "redirect") \/ is_Some (p_envelope p !! "poll") ->
   is_Some (p_envelope p !! "return")) /\
  p_world p = st_world st.
Proof.
  unfold finish. intros H.
  destruct (post_validate E st od (frontend_context E (st_component st)))
    as [c validated].
  destruct (getattr c "errors") as [errors|]; [|discriminate H]. cbn [bind] in H.
  destruct (parent_entry E c) as [parent|]; [|discriminate H]. cbn [bind] in H.
  injection H as <-. cbn [p_envelope p_world].
  set (res := <["id" := VStr id]> (<["dom" := VStr (render E c)]>
              (<["data" := VDict (frontend_context E (st_component st))]>
              (<["errors" := errors]> (∅ : gmap string value))))).
  assert (Hbase : forall k, k <> "id" -> k <> "dom" -> k <> "data" -> k <> "errors" ->
                            res !! k = None).
  { intros k H1 H2 H3 H4. unfold res.
    rewrite !lookup_insert_ne by congruence. apply lookup_empty. }
  assert (Henv : forall k, k <> "parent" ->
            match parent with
            | Some pv => <["parent" := pv]> (add_return E (st_return st) res)
            | None => add_return E (st_return st) res
            end !! k = add_return E (st_return st) res !! k).
  { intros k Hk. destruct parent; [by rewrite lookup_insert_ne|reflexivity]. }
  rewrite !Henv by discriminate.
  rewrite !add_return_lookup_other by discriminate.
  rewrite add_return_lookup_return by (apply Hbase; discriminate).
  unfold res at 1 2 3 4.
  repeat (rewrite lookup_insert_eq || (rewrite lookup_insert_ne; [|discriminate])).
  repeat split; eauto.
  intros Hopt. destruct (st_return st) as [r|]; [by eexists|].
  cbn [add_return] in Hopt. rewrite !Hbase in Hopt by discriminate.
  destruct Hopt as [[x Hx]|[x Hx]]; discriminate.
Qed.

(** A successful pass of the dispatcher answers with an envelope that
    carries the request's id, the markup, the data and the errors, and that
    holds a redirect or a poll entry only together with a return entry. *)
Theorem envelope_shape (E : collaborators) (fuel : nat) (w : world) (name : string)
        (req : ComponentRequest) (p : pass) :
  _process_component_request E fuel w name req = Ok p ->
  p_envelope p !! "id" = Some (VStr (cr_id req)) /\
  is_Some (p_envelope p !! "dom") /\
  is_Some (p_envelope p !! "data") /\
  is_Some (p_envelope p !! "errors") /\
  (is_Some (p_envelope p !! "redirect") \/ is_Some (p_envelope p !! "poll") ->
   is_Some (p_envelope p !! "return")).
Proof.
  unfold _process_component_request. intros H.
  destruct (hydrated_state E fuel w name req) as [st0|]; [|discriminate H].
  cbn [bind] in H.
  destruct (apply_actions E (cr_id req) name st0 (cr_action_queue req)) as [st|];
    [|discriminate H].
  cbn [bind] in H.
  destruct (finish_shape _ _ _ _ _ H) as (Hid & Hdom & Hdata & Herr & Hopt & _).
  repeat split; eauto.
Qed.

Lemma envelope_shape_witness :
  exists p,
    _process_component_request bare 1 empty_world "hello-world"
                               (request 1 [call_method "first"]) = Ok p /\
    p_envelope p !! "id" = Some (VStr "7").
Proof.
  destruct (_process_component_request bare 1 empty_world "hello-world"
              (request 1 [call_method "first"])) as [p|e] eqn:Hp;
    [|vm_compute in Hp; discriminate Hp].
  exists p. split; [reflexivity|].
  exact (proj1 (envelope_shape bare 1 empty_world "hello-world"
                  (request 1 [call_method "first"]) p Hp)).
Defined.

(** ** Further properties of the request coordinator *)

(** The boundary turns an assertion failure or a [UnicornViewError] of the
    dispatcher into an error response carrying the message; every other
    exception leaves the view as it is. *)
Theorem boundary_catches_two_kinds (E : collaborators) (fuel : nat)
        (arrivals : list (list ComponentRequest)) (s : cstate) (name : string)
        (req : ComponentRequest) (e : exn) :
  name <> "" ->
  fuel <> O ->
  default [] (cache s !! (name +:+ ":" +:+ cr_id req)) = [] ->
  _process_component_request E fuel (c_world s) name req = Raise e ->
  unicorn_message E fuel arrivals s name req =
    match e with
    | AssertionError msg => Ok (<["error" := VStr msg]> ∅)
    | UnicornViewError msg => Ok (<["error" := VStr msg]> ∅)
    | _ => Raise e
    end.
Proof.
  intros Hname Hfuel Hq Hp.
  unfold unicorn_message, message, _handle_component_request.
  destruct (String.eqb_spec name "") as [->|_]; [done|].
  rewrite submit_alone by exact Hq.
  destruct fuel as [|fuel']; [done|].
  rewrite drain_unfold. cbn [cache_set cache c_world].
  rewrite lookup_insert_eq, sort_by_epoch_single, Hp. cbn [bind handle_error].
  by destruct e.
Qed.

Lemma boundary_catches_two_kinds_witness :
  unicorn_message bare 1 [] idle "hello-world"
                  (request 1 [<["type" := VStr "callMethod"]> ∅]) =
    Ok (<["error" := VStr "Missing 'name' key for callMethod"]> ∅).
Proof.
  refine (boundary_catches_two_kinds bare 1 [] idle "hello-world"
            (request 1 [<["type" := VStr "callMethod"]> ∅])
            (AssertionError "Missing 'name' key for callMethod") _ _ _ _);
    try discriminate; reflexivity.
Defined.

(** A request that finds the queue of its key empty, and during whose pass
    nothing lands, is answered with the envelope of its own pass, unchanged;
    the dispatcher runs once and the queue is left empty. *)
Theorem sole_request_gets_its_envelope
        (process : world -> string -> ComponentRequest -> result pass)
        (fuel : nat) (arrivals : list (list ComponentRequest)) (s : cstate)
        (name : string) (req : ComponentRequest) (p : pass) :
  default [] (cache s !! (name +:+ ":" +:+ cr_id req)) = [] ->
  hd [] arrivals = [] ->
  process (c_world s) name req = Ok p ->
  exists s',
    _handle_component_request process (S fuel) arrivals s name req =
      Ok (p_envelope p, s') /\
    passes s' = passes s ++ [req] /\
    cache s' !! (name +:+ ":" +:+ cr_id req) = Some [] /\
    c_world s' = p_world p.
Proof.
  intros Hq Harr Hp. unfold _handle_component_request.
  rewrite submit_alone by exact Hq.
  erewrite drain_single;
    [| cbn [cache_set cache]; apply lookup_insert_eq | exact Harr | exact Hp].
  eexists. split; [reflexivity|]. cbn [cache_set cache passes c_world].
  split; [reflexivity|]. split; [apply lookup_insert_eq | reflexivity].
Qed.

Lemma sole_request_gets_its_envelope_witness :
  exists p s',
    _handle_component_request (_process_component_request bare 1) 1 [] idle
                              "hello-world" epoch1 = Ok (p_envelope p, s') /\
    passes s' = [epoch1].
Proof.
  destruct (_process_component_request bare 1 empty_world "hello-world" epoch1)
    as [p|e] eqn:Hp; [|vm_compute in Hp; discriminate Hp].
  destruct (sole_request_gets_its_envelope (_process_component_request bare 1) 0 []
              idle "hello-world" epoch1 p eq_refl eq_refl Hp)
    as (s' & Hrun & Hpasses & _).
  exists p, s'. split; [exact Hrun | exact Hpasses].
Defined.

(** The requests [b :: bs] that land under the same key while the pass of
    a sole request runs are folded into one request: identity, data and
    epoch of the first of them, [b], and the action queues of all of them
    concatenated in arrival order.  That request is processed in a second
    pass; the caller gets the envelope of the second pass with the return
    values of both passes paired, and the queue is left empty. *)
Theorem late_requests_are_merged
        (process : world -> string -> ComponentRequest -> result pass)
        (fuel : nat) (later : list (list ComponentRequest)) (s : cstate)
        (name : string) (req b : ComponentRequest) (bs : list ComponentRequest)
        (p1 p2 : pass) :
  default [] (cache s !! (name +:+ ":" +:+ cr_id req)) = [] ->
  cr_id b = cr_id req ->
  hd [] later = [] ->
  process (c_world s) name req = Ok p1 ->
  process (p_world p1) name
          {| cr_id := cr_id b; cr_data := cr_data b;
             cr_action_queue :=
               cr_action_queue b ++ List.concat (List.map cr_action_queue bs);
             cr_epoch := cr_epoch b |} = Ok p2 ->
  exists s',
    _handle_component_request process (S (S fuel)) ((b :: bs) :: later) s name req =
      Ok (<["return" := VList [json_get (p_envelope p1) "return";
                               json_get (p_envelope p2) "return"]]> (p_envelope p2), s') /\
    passes s' =
      passes s ++
      [req;
       {| cr_id := cr_id b; cr_data := cr_data b;
          cr_action_queue :=
            cr_action_queue b ++ List.concat (List.map cr_action_queue bs);
          cr_epoch := cr_epoch b |}] /\
    cache s' !! (name +:+ ":" +:+ cr_id req) = Some [].
Proof.
  intros Hq Hid Hlater Hp1 Hp2. unfold _handle_component_request.
  change {| cr_id := cr_id b; cr_data := cr_data b;
            cr_action_queue :=
              cr_action_queue b ++ List.concat (List.map cr_action_queue bs);
            cr_epoch := cr_epoch b |} with (merge_requests b bs) in *.
  rewrite submit_alone by exact Hq.
  rewrite drain_unfold. cbn [cache_set cache c_world passes].
  rewrite lookup_insert_eq, sort_by_epoch_single, Hp1.
  cbn [bind hd land cache_set cache c_world passes].
  rewrite !lookup_insert_eq. cbn [default from_option id app tail].
  assert (Hkey : name +:+ ":" +:+ cr_id (merge_requests b bs)
                 = name +:+ ":" +:+ cr_id req) by (cbn [merge_requests cr_id]; by rewrite Hid).
  rewrite submit_alone
    by (rewrite Hkey; cbn [cache_set cache]; by rewrite lookup_insert_eq).
  rewrite Hkey.
  erewrite drain_single;
    [| cbn [cache_set cache]; apply lookup_insert_eq | exact Hlater | exact Hp2].
  cbn [bind]. eexists. split; [reflexivity|]. cbn [cache_set cache passes].
  split; [by rewrite <- app_assoc | apply lookup_insert_eq].
Qed.

Lemma late_requests_are_merged_witness :
  exists env s',
    _handle_component_request (_process_component_request bare 1) 2
                              [[epoch1; epoch3]] idle "hello-world" epoch2 =
      Ok (env, s') /\
    passes s' =
      [epoch2;
       {| cr_id := "7"; cr_data := ∅;
          cr_action_queue := [call_method "first"; call_method "third"];
          cr_epoch := 1 |}] /\
    env !! "return" = Some (VList [result_of "second"; result_of "third"]).
Proof.
  destruct (_process_component_request bare 1 empty_world "hello-world" epoch2)
    as [p1|e] eqn:Hp1; [|vm_compute in Hp1; discriminate Hp1].
  destruct (_process_component_request bare 1 (p_world p1) "hello-world"
              {| cr_id := "7"; cr_data := ∅;
                 cr_action_queue := [call_method "first"; call_method "third"];
                 cr_epoch := 1 |}) as [p2|e] eqn:Hp2;
    [|vm_compute in Hp1; injection Hp1 as <-; vm_compute in Hp2; discriminate Hp2].
  destruct (late_requests_are_merged (_process_component_request bare 1) 0 [] idle
              "hello-world" epoch2 epoch1 [epoch3] p1 p2 eq_refl eq_refl eq_refl Hp1 Hp2)
    as (s' & Hrun & Hpasses & _).
  eexists _, s'. split; [exact Hrun|]. split; [exact Hpasses|].
  vm_compute in Hp1. injection Hp1 as <-. vm_compute in Hp2. injection Hp2 as <-.
  vm_compute. reflexivity.
Defined.

Lemma insert_by_epoch_perm r l : insert_by_epoch r l ≡ₚ r :: l.
Proof.
  induction l as [|x l IH]; cbn [insert_by_epoch]; [reflexivity|].
  destruct (cr_epoch r <=? cr_epoch x)%Z; [reflexivity|].
  rewrite IH. apply Permutation_swap.
Qed.

Lemma sort_by_epoch_perm l : sort_by_epoch l ≡ₚ l.
Proof.
  induction l as [|r l IH]; cbn [sort_by_epoch]; [reflexivity|].
  by rewrite insert_by_epoch_perm, IH.
Qed.

Lemma sort_by_epoch_head_least l : forall first rest,
  sort_by_epoch l = first :: rest ->
  Forall (fun r => (cr_epoch first <= cr_epoch r)%Z) l.
Proof.
  induction l as [|r l IH]; intros first rest H; [constructor|].
  cbn [sort_by_epoch] in H. destruct (sort_by_epoch l) as [|f' rest'] eqn:Hs.
  - pose proof (sort_by_epoch_perm l) as Hp. rewrite Hs in Hp.
    apply Permutation_nil_l in Hp. subst l.
    injection H as <- _. constructor; [lia | constructor].
  - specialize (IH f' rest' eq_refl). cbn [insert_by_epoch] in H.
    destruct (Z.leb_spec (cr_epoch r) (cr_epoch f')) as [Hle|Hgt].
    + injection H as <- _. constructor; [lia|].
      eapply Forall_impl; [exact IH|]. intros x Hx. simpl in Hx. lia.
    + injection H as <- _. constructor; [lia | exact IH].
Qed.

Lemma land_lookup s key batch q :
  cache s !! key = Some q ->
  cache (land s key batch) !! key = Some (q ++ batch).
Proof.
  intros Hq. destruct batch as [|b batch]; cbn [land].
  - by rewrite app_nil_r.
  - cbn [cache_set cache]. rewrite Hq. apply lookup_insert_eq.
Qed.

(** What a successful drain has done. *)
Lemma drain_inv process fuel arrivals s name key env s' :
  _handle_component_requests process (S fuel) arrivals s name key = Ok (env, s') ->
  exists q first sorted_rest p x rest,
    cache s !! key = Some q /\
    sort_by_epoch q = first :: sorted_rest /\
    process (c_world s) name first = Ok p /\
    q ++ hd [] arrivals = x :: rest /\
    let s2 := land {| cache := cache s; c_world := p_world p;
                      passes := passes s ++ [first] |} key (hd [] arrivals) in
    (rest = [] /\ env = p_envelope p /\ s' = cache_set s2 key []) \/
    (exists b bs new_env,
       rest = b :: bs /\
       submit (_handle_component_requests process fuel (tl arrivals))
              (cache_set (cache_set s2 key rest) key []) name (merge_requests b bs)
         = Ok (new_env, s') /\
       env = <["return" := VList [json_get (p_envelope p) "return";
                                  json_get new_env "return"]]> new_env).
Proof.
  rewrite drain_unfold. intros H.
  destruct (cache s !! key) as [q|] eqn:Hq; [|discriminate H].
  destruct (sort_by_epoch q) as [|first sorted_rest] eqn:Hs; [discriminate H|].
  destruct (process (c_world s) name first) as [p|] eqn:Hp; [|discriminate H].
  cbn [bind] in H.
  rewrite (land_lookup {| cache := cache s; c_world := p_world p;
                          passes := passes s ++ [first] |}
                       key (hd [] arrivals) q Hq) in H.
  destruct (q ++ hd [] arrivals) as [|x [|b bs]] eqn:Hl; [discriminate H| |].
  - injection H as <- <-. exists q, first, sorted_rest, p, x, [].
    repeat (split; [done|]). left. done.
  - destruct (submit _ _ name (merge_requests b bs)) as [[new_env s'']|] eqn:Hsub;
      [|discriminate H].
    cbn [bind] in H. injection H as <- <-.
    exists q, first, sorted_rest, p, x, (b :: bs).
    repeat (split; [done|]). right. exists b, bs, new_env. done.
Qed.

Lemma passes_land s key batch : passes (land s key batch) = passes s.
Proof. by destruct batch. Qed.

Lemma drain_passes_extend process fuel : forall arrivals s name key env s',
  _handle_component_requests process fuel arrivals s name key = Ok (env, s') ->
  exists l, passes s' = passes s ++ l.
Proof.
  induction fuel as [|fuel IH]; intros arrivals s name key env s' H; [discriminate H|].
  destruct (drain_inv _ _ _ _ _ _ _ _ H)
    as (q & first & srest & p & x & rest & _ & _ & _ & _ & Hcase).
  cbn zeta in Hcase. destruct Hcase as [(_ & _ & ->) | (b & bs & new_env & _ & Hsub & _)].
  - cbn [cache_set passes]. rewrite passes_land. cbn [passes]. eauto.
  - unfold submit in Hsub.
    match type of Hsub with
    | (if ?c then _ else _) = _ => destruct c
    end.
    + match type of Hsub with
      | match ?l with _ => _ end = _ => destruct l; [discriminate Hsub|]
      end.
      injection Hsub as _ <-. cbn [cache_set passes]. rewrite passes_land.
      cbn [passes]. eauto.
    + destruct (IH _ _ _ _ _ _ Hsub) as [l Hl]. rewrite Hl.
      cbn [cache_set passes]. rewrite passes_land. cbn [passes].
      rewrite <- app_assoc. eauto.
Qed.

(** The first request a drain hands to the dispatcher is one of the stored
    queue with the least epoch of the queue. *)
Theorem drain_starts_with_least_epoch
        (process : world -> string -> ComponentRequest -> result pass)
        (fuel : nat) (arrivals : list (list ComponentRequest)) (s : cstate)
        (name key : string) (q : list ComponentRequest)
        (env : gmap string value) (s' : cstate) :
  cache s !! key = Some q ->
  _handle_component_requests process fuel arrivals s name key = Ok (env, s') ->
  exists first rest,
    passes s' = passes s ++ first :: rest /\
    first ∈ q /\
    Forall (fun r => (cr_epoch first <= cr_epoch r)%Z) q.
Proof.
  intros Hq H. destruct fuel as [|fuel]; [discriminate H|].
  destruct (drain_passes_extend _ _ _ _ _ _ _ _ H) as [l Hl].
  destruct (drain_inv _ _ _ _ _ _ _ _ H)
    as (q' & first & srest & p & x & rest & Hq' & Hs & _ & _ & Hcase).
  rewrite Hq in Hq'. injection Hq' as <-.
  assert (Hin : first ∈ q).
  { rewrite <- (sort_by_epoch_perm q), Hs. left. }
  pose proof (sort_by_epoch_head_least q first srest Hs) as Hleast.
  cbn zeta in Hcase. destruct Hcase as [(_ & _ & ->) | (b & bs & new_env & _ & Hsub & _)].
  - exists first, []. cbn [cache_set passes]. rewrite passes_land. done.
  - assert (Hext : exists l', passes s' = (passes s ++ [first]) ++ l').
    { unfold submit in Hsub.
      match type of Hsub with
      | (if ?c then _ else _) = _ => destruct c
      end.
      - match type of Hsub with
        | match ?l with _ => _ end = _ => destruct l; [discriminate Hsub|]
        end.
        injection Hsub as _ <-. cbn [cache_set passes]. rewrite passes_land.
        cbn [passes]. exists []. by rewrite app_nil_r.
      - destruct (drain_passes_extend _ _ _ _ _ _ _ _ Hsub) as [l' Hl'].
        rewrite Hl'. cbn [cache_set passes]. rewrite passes_land. cbn [passes]. eauto. }
    destruct Hext as [l' Hl']. exists first, l'.
    rewrite Hl', <- app_assoc. done.
Qed.

Lemma drain_starts_with_least_epoch_witness :
  exists env s' rest,
    _handle_component_requests (_process_component_request bare 1) 2 []
      (cache_set idle "hello-world:7" [epoch2; epoch1])
      "hello-world" "hello-world:7" = Ok (env, s') /\
    passes s' = epoch1 :: rest.
Proof.
  destruct (_handle_component_requests (_process_component_request bare 1) 2 []
      (cache_set idle "hello-world:7" [epoch2; epoch1])
      "hello-world" "hello-world:7") as [[env s']|e] eqn:Hrun;
    [|vm_compute in Hrun; discriminate Hrun].
  destruct (drain_starts_with_least_epoch (_process_component_request bare 1) 2 []
              (cache_set idle "hello-world:7" [epoch2; epoch1])
              "hello-world" "hello-world:7" [epoch2; epoch1] env s' eq_refl Hrun)
    as (first & rest & Hpasses & Hin & Hleast).
  exists env, s', rest. split; [reflexivity|].
  cbn [cache_set passes idle app] in Hpasses. rewrite Hpasses. f_equal.
  apply elem_of_cons in Hin as [->|Hin].
  - inversion Hleast as [|? ? _ Hrest]; subst. inversion Hrest as [|? ? Hle _]; subst.
    vm_compute in Hle. by destruct Hle.
  - apply elem_of_cons in Hin as [->|Hin]; [reflexivity|]. by apply elem_of_nil in Hin.
Defined.

Lemma drain_leaves_queue_empty_aux process id name fuel : forall arrivals s env s',
  Forall (Forall (fun r => cr_id r = id)) arrivals ->
  (forall q, cache s !! (name +:+ ":" +:+ id) = Some q ->
             Forall (fun r => cr_id r = id) q) ->
  _handle_component_requests process fuel arrivals s name (name +:+ ":" +:+ id)
    = Ok (env, s') ->
  cache s' !! (name +:+ ":" +:+ id) = Some [].
Proof.
  induction fuel as [|fuel IH]; intros arrivals s env s' Harr Hids H; [discriminate H|].
  destruct (drain_inv _ _ _ _ _ _ _ _ H)
    as (q & first & srest & p & x & rest & Hq & _ & _ & Hl & Hcase).
  cbn zeta in Hcase. destruct Hcase as [(_ & _ & ->) | (b & bs & new_env & -> & Hsub & _)].
  - cbn [cache_set cache]. apply lookup_insert_eq.
  - assert (Hall : Forall (fun r => cr_id r = id) (x :: b :: bs)).
    { rewrite <- Hl. apply Forall_app. split; [by apply Hids|].
      destruct arrivals as [|batch arrivals]; [constructor|].
      by inversion Harr. }
    assert (Hb : cr_id b = id).
    { inversion Hall as [|? ? _ Hrest]; subst. by inversion Hrest. }
    assert (Hkey : name +:+ ":" +:+ cr_id (merge_requests b bs) = name +:+ ":" +:+ id)
      by (cbn [merge_requests cr_id]; by rewrite Hb).
    rewrite submit_alone in Hsub
      by (rewrite Hkey; cbn [cache_set cache]; by rewrite lookup_insert_eq).
    rewrite Hkey in Hsub. eapply IH; [| |exact Hsub].
    + destruct arrivals as [|batch arrivals]; [constructor|]. by inversion Harr.
    + intros q'. cbn [cache_set cache]. rewrite lookup_insert_eq. intros [= <-].
      constructor; [|constructor]. exact Hb.
Qed.

(** A drain that succeeds leaves the queue of its key empty, whatever
    landed in it on the way (all requests under the key carry the key's
    instance id). *)
Theorem drain_leaves_queue_empty
        (process : world -> string -> ComponentRequest -> result pass)
        (fuel : nat) (arrivals : list (list ComponentRequest)) (s : cstate)
        (name id : string) (q : list ComponentRequest)
        (env : gmap string value) (s' : cstate) :
  Forall (Forall (fun r => cr_id r = id)) arrivals ->
  cache s !! (name +:+ ":" +:+ id) = Some q ->
  Forall (fun r => cr_id r = id) q ->
  _handle_component_requests process fuel arrivals s name (name +:+ ":" +:+ id)
    = Ok (env, s') ->
  cache s' !! (name +:+ ":" +:+ id) = Some [].
Proof.
  intros Harr Hq Hids H.
  eapply drain_leaves_queue_empty_aux; [exact Harr| |exact H].
  intros q' Hq'. rewrite Hq in Hq'. by injection Hq' as <-.
Qed.

Lemma drain_leaves_queue_empty_witness :
  exists env s',
    _handle_component_requests (_process_component_request bare 1) 3 [[epoch1]; [epoch2]]
      (cache_set idle "hello-world:7" [epoch2]) "hello-world" "hello-world:7"
      = Ok (env, s') /\
    cache s' !! "hello-world:7" = Some [].
Proof.
  destruct (_handle_component_requests (_process_component_request bare 1) 3
              [[epoch1]; [epoch2]] (cache_set idle "hello-world:7" [epoch2])
              "hello-world" "hello-world:7") as [[env s']|e] eqn:Hrun;
    [|vm_compute in Hrun; discriminate Hrun].
  exists env, s'. split; [reflexivity|].
  refine (drain_leaves_queue_empty (_process_component_request bare 1) 3
            [[epoch1]; [epoch2]] (cache_set idle "hello-world:7" [epoch2])
            "hello-world" "7" [epoch2] env s' _ _ _ Hrun).
  - repeat constructor.
  - reflexivity.
  - repeat constructor.
Defined.

Lemma sort_by_epoch_nonempty q : q <> [] -> sort_by_epoch q <> [].
Proof.
  intros Hq Hs. pose proof (sort_by_epoch_perm q) as Hp. rewrite Hs in Hp.
  apply Permutation_nil_l in Hp. congruence.
Qed.

Lemma drain_returns_aux process id name :
  (forall w n r, exists p, process w n r = Ok p) ->
  forall fuel arrivals s q,
    Forall (Forall (fun r => cr_id r = id)) arrivals ->
    cache s !! (name +:+ ":" +:+ id) = Some q ->
    q <> [] ->
    Forall (fun r => cr_id r = id) q ->
    (List.length arrivals + 2 <= fuel \/
     (List.length q = 1 /\ List.length arrivals + 1 <= fuel))%nat ->
    exists env s',
      _handle_component_requests process fuel arrivals s name (name +:+ ":" +:+ id)
        = Ok (env, s').
Proof.
  intros Htotal. induction fuel as [|fuel IH]; intros arrivals s q Harr Hq Hne Hids Hfuel.
  { destruct Hfuel as [Hf|[_ Hf]]; lia. }
  rewrite drain_unfold, Hq.
  destruct (sort_by_epoch q) as [|first srest] eqn:Hs;
    [by destruct (sort_by_epoch_nonempty q Hne)|].
  destruct (Htotal (c_world s) name first) as [p Hp]. rewrite Hp. cbn [bind].
  rewrite (land_lookup {| cache := cache s; c_world := p_world p;
                          passes := passes s ++ [first] |}
                       _ (hd [] arrivals) q Hq).
  destruct (q ++ hd [] arrivals) as [|x [|b bs]] eqn:Hl.
  - destruct q; [by destruct Hne | simpl in Hl; discriminate Hl].
  - eauto.
  - assert (Hall : Forall (fun r => cr_id r = id) (x :: b :: bs)).
    { rewrite <- Hl. apply Forall_app. split; [exact Hids|].
      destruct arrivals as [|batch arrivals]; [constructor|]. by inversion Harr. }
    assert (Hb : cr_id b = id).
    { inversion Hall as [|? ? _ Hrest]; subst. by inversion Hrest. }
    assert (Hkey : name +:+ ":" +:+ cr_id (merge_requests b bs) = name +:+ ":" +:+ id)
      by (cbn [merge_requests cr_id]; by rewrite Hb).
    rewrite submit_alone
      by (rewrite Hkey; cbn [cache_set cache]; by rewrite lookup_insert_eq).
    rewrite Hkey.
    assert (Harr' : Forall (Forall (fun r => cr_id r = id)) (tl arrivals)).
    { destruct arrivals as [|batch arrivals]; [constructor|]. by inversion Harr. }
    assert (Hfuel' : (List.length (tl arrivals) + 1 <= fuel)%nat).
    { destruct Hfuel as [Hf|[Hlen Hf]].
      - destruct arrivals; cbn [tl List.length] in *; lia.
      - destruct q as [|y [|z q]]; try discriminate Hlen.
        destruct arrivals as [|batch arrivals]; [discriminate Hl|].
        cbn [tl List.length] in *. lia. }
    match goal with
    | |- context [_handle_component_requests process fuel (tl arrivals) ?S _ _] =>
        destruct (IH (tl arrivals) S [merge_requests b bs] Harr') as (env & s' & Hrun)
    end.
    + cbn [cache_set cache]. apply lookup_insert_eq.
    + discriminate.
    + constructor; [|constructor]. cbn [merge_requests cr_id]. exact Hb.
    + right. split; [reflexivity | exact Hfuel'].
    + rewrite Hrun. cbn [bind]. eauto.
Qed.

(** With a dispatcher that never fails, a drain over a non-empty queue
    returns an envelope once it may nest two calls deeper than there are
    rounds of arrivals: the re-entrant calls stop when nothing more has
    landed. *)
Theorem drain_returns
        (process : world -> string -> ComponentRequest -> result pass)
        (fuel : nat) (arrivals : list (list ComponentRequest)) (s : cstate)
        (name id : string) (q : list ComponentRequest) :
  (forall w n r, exists p, process w n r = Ok p) ->
  Forall (Forall (fun r => cr_id r = id)) arrivals ->
  cache s !! (name +:+ ":" +:+ id) = Some q ->
  q <> [] ->
  Forall (fun r => cr_id r = id) q ->
  (List.length arrivals + 2 <= fuel)%nat ->
  exists env s',
    _handle_component_requests process fuel arrivals s name (name +:+ ":" +:+ id)
      = Ok (env, s').
Proof.
  intros Htotal Harr Hq Hne Hids Hfuel.
  eapply drain_returns_aux; eauto.
Qed.

Lemma drain_returns_witness :
  exists env s',
    _handle_component_requests
      (fun w _ r => Ok {| p_envelope := <["id" := VStr (cr_id r)]> ∅; p_world := w;
                          p_events := []; p_validated := false |})
      3 [[epoch1]] (cache_set idle "hello-world:7" [epoch2])
      "hello-world" "hello-world:7" = Ok (env, s').
Proof.
  refine (drain_returns _ 3 [[epoch1]] (cache_set idle "hello-world:7" [epoch2])
            "hello-world" "7" [epoch2] _ _ _ _ _ _).
  - intros w n r. eauto.
  - repeat constructor.
  - reflexivity.
  - discriminate.
  - repeat constructor.
  - cbn [List.length]. lia.
Defined.

Lemma set_property_from_data_keeps_dom E fuel b (a : gmap string value) name v node' ev :
  _set_property_from_data E fuel b (VObj a) name v = Ok (node', ev) ->
  exists a', node' = VObj a' /\ dom a' = dom a /\
             forall k, k <> name -> a' !! k = a !! k.
Proof.
  destruct fuel as [|fuel]; [discriminate|]. cbn [_set_property_from_data node_attr].
  destruct (a !! name) as [field|] eqn:Hfield.
  - assert (Hins : forall x, dom (<[name := x]> a) = dom a /\
                             forall k, k <> name -> <[name := x]> a !! k = a !! k).
    { intros x. split; [apply dom_insert_lookup_L; eauto|].
      intros k Hk. by apply lookup_insert_ne. }
    intros H.
    destruct field; try (destruct b; cbn [_set_property node_setattr] in H;
                         injection H as <- _; exact (ex_intro _ _ (conj eq_refl (Hins _)))).
    destruct v;
      try (destruct (a0 !! "name") as [[]|]; try discriminate H;
           match type of H with
           | bind ?x _ = _ => destruct x as [[field' ev']|]; [|discriminate H]
           end;
           cbn [bind node_setattr] in H; injection H as <- _;
           exact (ex_intro _ _ (conj eq_refl (Hins _)))).
  - intros [= <- _]. eauto.
Qed.

(** Hydration never adds an attribute to the component nor removes one,
    and leaves every attribute that is no key of the request data as it
    was: for request data whose keys are field names of the component (no
    method of the class, no underscore-prefixed name), and a class whose
    [hydrate] hook and hooks on those keys are inert. *)
Theorem hydration_frame (E : collaborators) (fuel : nat) (c : component)
        (data : gmap string value) (c' : component) (ev : list event) :
  inert E "hydrate" ->
  (forall k, is_Some (data !! k) ->
             hidden E true (VObj c) k = false /\
             inert E ("updating_" +:+ k) /\ inert E ("updated_" +:+ k)) ->
  hydrate_from_data E fuel c data = Ok (c', ev) ->
  dom c' = dom c /\ forall k, data !! k = None -> c' !! k = c !! k.
Proof.
  intros _ _. unfold hydrate_from_data.
  match goal with
  | |- context [map_fold ?f ?b data] =>
      assert (Hfold : forall node evs,
                map_fold f b data = Ok (node, evs) ->
                exists a', node = VObj a' /\ dom a' = dom c /\
                           forall k, data !! k = None -> a' !! k = c !! k);
        [apply (map_fold_weak_ind
                  (fun r (m : gmap string value) =>
                     forall node evs, r = Ok (node, evs) ->
                       exists a', node = VObj a' /\ dom a' = dom c /\
                                  forall k, m !! k = None -> a' !! k = c !! k) f b)|]
  end.
  - intros node evs [= <- <-]. eauto.
  - intros i x m r Hi IH node0 evs0 Hstep.
    destruct r as [[n evn]|]; [|discriminate Hstep]. cbn [bind] in Hstep.
    destruct (IH n evn eq_refl) as (a1 & -> & Hdom1 & Hother1).
    match type of Hstep with
    | bind ?x _ = _ => destruct x as [[n' ev']|] eqn:Hset; [|discriminate Hstep]
    end.
    cbn [bind] in Hstep. injection Hstep as <- _.
    destruct (set_property_from_data_keeps_dom _ _ _ _ _ _ _ _ Hset)
      as (a2 & -> & Hdom2 & Hother2).
    exists a2. split; [reflexivity|]. split; [congruence|].
    intros k Hk. apply lookup_insert_None in Hk as [Hk Hne].
    rewrite Hother2 by congruence. by apply Hother1.
  - intros H.
    match type of H with
    | bind ?x _ = _ => destruct x as [[node evs]|] eqn:Hrun; [|discriminate H]
    end.
    cbn [bind] in H.
    destruct (Hfold node evs eq_refl) as (a' & -> & Hdom & Hother).
    injection H as <- _. split; assumption.
Qed.

Lemma hydration_frame_witness :
  exists c' ev,
    hydrate_from_data bare 1 fresh_view (<["count" := VInt 5]> ∅) = Ok (c', ev) /\
    dom c' = dom fresh_view /\ c' !! "errors" = fresh_view !! "errors".
Proof.
  destruct (hydrate_from_data bare 1 fresh_view (<["count" := VInt 5]> ∅))
    as [[c' ev]|e] eqn:Hh; [|vm_compute in Hh; discriminate Hh].
  assert (Hkeys : forall k, is_Some ((<["count" := VInt 5]> ∅ : gmap string value) !! k) ->
                            hidden bare true (VObj fresh_view) k = false /\
                            inert bare ("updating_" +:+ k) /\
                            inert bare ("updated_" +:+ k)).
  { intros k [x Hx]. split; [|split; apply bare_inert].
    destruct (decide ("count" = k)) as [<-|Hne]; [reflexivity|].
    rewrite lookup_insert_ne in Hx by exact Hne. rewrite lookup_empty in Hx.
    discriminate Hx. }
  destruct (hydration_frame bare 1 fresh_view (<["count" := VInt 5]> ∅) c' ev
              (bare_inert _) Hkeys Hh) as [Hdom Hother].
  exists c', ev. split; [reflexivity|]. split; [exact Hdom|].
  apply Hother. reflexivity.
Defined.

Lemma set_walk_missing_intermediate E full v part rest node sh pre
      (d : gmap string value) sh' :
  walks_to node sh pre (VDict d) sh' ->
  d !! part = None ->
  rest <> [] ->
  forall b, set_walk E full b node sh (pre ++ part :: rest) v = Raise (KeyError part).
Proof.
  intros Hw Hd Hrest. remember (VDict d) as owner eqn:Howner.
  induction Hw as [node sh | node sd p child pre n sh Hattr Hw IH
                   | d0 sd p child pre n sh Hd0 Hw IH]; intros b.
  - subst node. cbn [app set_walk node_attr]. rewrite Hd.
    destruct rest; [done | reflexivity].
  - rewrite <- app_comm_cons,
      (set_walk_attr_step _ _ _ _ _ _ _ _ _ Hattr (app_not_nil pre (part :: rest)
                                                     ltac:(discriminate))).
    cbn [shadow_get bind]. by rewrite (IH Howner false).
  - rewrite <- app_comm_cons,
      (set_walk_key_step _ _ _ _ _ _ _ _ _ Hd0 (app_not_nil pre (part :: rest)
                                                   ltac:(discriminate))).
    cbn [shadow_get bind]. by rewrite (IH Howner false).
Qed.

(** A set on a path of field names whose walk reaches a keyed container
    and has to go on through a key the container lacks raises [KeyError]
    for that key, and writes nothing ([updating], invoked before the walk,
    being inert). *)
Theorem set_missing_intermediate_key_raises (E : collaborators) (c : component)
        (data : value) (name : string) (pre : list string) (part : string)
        (rest : list string) (d : gmap string value) (sh v : value) :
  plain_walk E true (VObj c) (split_dots name) = true ->
  inert E "updating" ->
  split_dots name = pre ++ part :: rest ->
  walks_to (VObj c) data pre (VDict d) sh ->
  d !! part = None ->
  rest <> [] ->
  v <> VNone ->
  _set_property_value E c (VStr name) v data = Raise (KeyError part).
Proof.
  intros _ _ Hsplit Hw Hd Hrest Hv. unfold _set_property_value. rewrite Hsplit.
  rewrite (set_walk_missing_intermediate E name v part rest _ _ _ d sh Hw Hd Hrest true).
  destruct v; try reflexivity. by destruct Hv.
Qed.

Lemma set_missing_intermediate_key_raises_witness :
  _set_property_value bare author_view (VStr "tags.colour.shade") (VStr "dark")
                      (VDict ∅) = Raise (KeyError "colour").
Proof.
  apply (set_missing_intermediate_key_raises bare author_view (VDict ∅)
           "tags.colour.shade" ["tags"] "colour" ["shade"] ∅ (VDict ∅)).
  - reflexivity.
  - apply bare_inert.
  - reflexivity.
  - eapply wt_attr; [reflexivity|]. apply wt_nil.
  - reflexivity.
  - discriminate.
  - discriminate.
Defined.

Lemma apply_call_method_keeps_reset E id name st a st' :
  action_type a = VStr "callMethod" ->
  ~ is_reset_call E a ->
  apply_call_method E id name st (action_payload a) = Ok st' ->
  st_reset st' = st_reset st.
Proof.
  intros Htype Hnot. unfold apply_call_method.
  destruct (dict_get (action_payload a) "name" (VStr "")) as [cmv|] eqn:Hname;
    [|discriminate].
  cbn [bind]. destruct (negb (truthy cmv)) eqn:Htruthy; [discriminate|].
  destruct cmv as [| | |cmn| | | |]; try discriminate.
  destruct (parse_call_method_name E cmn) as [[m params]|] eqn:Hparse; [|discriminate].
  cbn [bind].
  destruct (if contains_eq cmn then parse_kwarg E cmn else None) as [[pn pv]|] eqn:Hsetter.
  - intros H. bind_ok H. by injection H as <-.
  - destruct (String.eqb_spec m "$refresh") as [_|_]; [by intros [= <-]|].
    destruct (String.eqb_spec m "$reset") as [->|_].
    + exfalso. apply Hnot. split; [exact Htype|]. exists cmn, params.
      split; [exact Hname|]. split; [|split; [exact Hparse | exact Hsetter]].
      intros ->. discriminate Htruthy.
    + destruct (String.eqb_spec m "$toggle") as [_|_].
      * intros H. bind_ok H. by injection H as <-.
      * destruct (String.eqb_spec m "$validate") as [_|_]; [by intros [= <-]|].
        intros H. bind_ok H. by injection H as <-.
Qed.

Lemma apply_action_keeps_reset E id name st a st' :
  ~ is_reset_call E a ->
  apply_action E id name st a = Ok st' ->
  st_reset st' = st_reset st.
Proof.
  intros Hnot H.
  destruct (apply_action_kind _ _ _ _ _ _ H) as [Hk | [Hk | Hk]].
  - rewrite (apply_action_sync_input _ _ _ _ _ Hk) in H. unfold apply_sync_input in H.
    bind_ok H. by injection H as <-.
  - rewrite (apply_action_db_input _ _ _ _ _ Hk) in H.
    bind_ok H. by injection H as <-.
  - rewrite (apply_action_call_method _ _ _ _ _ Hk) in H.
    by eapply apply_call_method_keeps_reset.
Qed.

Lemma apply_actions_keep_reset E id name q : forall st st',
  Forall (fun a => ~ is_reset_call E a) q ->
  apply_actions E id name st q = Ok st' ->
  st_reset st' = st_reset st.
Proof.
  induction q as [|a q IH]; intros st st' Hall H; simpl in H.
  - by injection H as <-.
  - destruct (apply_action E id name st a) as [st1|] eqn:Ha; [|discriminate H].
    simpl in H. inversion Hall as [|? ? Hnot Hall']; subst.
    rewrite (IH _ _ Hall' H). by eapply apply_action_keeps_reset.
Qed.

(** A request whose action queue holds no [$reset] call goes through the
    validation step of PostProcessing whenever its pass succeeds. *)
Theorem validation_runs_without_reset (E : collaborators) (fuel : nat) (w : world)
        (name : string) (req : ComponentRequest) (p : pass) :
  Forall (fun a => ~ is_reset_call E a) (cr_action_queue req) ->
  _process_component_request E fuel w name req = Ok p ->
  p_validated p = true.
Proof.
  intros Hall H. unfold _process_component_request in H.
  destruct (hydrated_state E fuel w name req) as [st0|] eqn:Hhyd; [|discriminate H].
  cbn [bind] in H.
  destruct (apply_actions E (cr_id req) name st0 (cr_action_queue req)) as [st|] eqn:Hrun;
    [|discriminate H].
  cbn [bind] in H. destruct (finish_envelope _ _ _ _ _ H) as (Hv & _ & _).
  rewrite Hv, (apply_actions_keep_reset _ _ _ _ _ _ Hall Hrun).
  unfold hydrated_state in Hhyd. bind_ok Hhyd. by injection Hhyd as <-.
Qed.

Lemma validation_runs_without_reset_witness :
  exists p,
    _process_component_request bare 1 empty_world "hello-world"
      (request 1 [call_method "$validate"]) = Ok p /\
    p_validated p = true.
Proof.
  destruct (_process_component_request bare 1 empty_world "hello-world"
              (request 1 [call_method "$validate"])) as [p|e] eqn:Hp;
    [|vm_compute in Hp; discriminate Hp].
  exists p. split; [reflexivity|].
  refine (validation_runs_without_reset bare 1 empty_world "hello-world"
            (request 1 [call_method "$validate"]) p _ Hp).
  constructor; [|constructor].
  intros (_ & cmn & params & Hname & _ & Hparse & _).
  vm_compute in Hname. injection Hname as <-.
  vm_compute in Hparse. discriminate Hparse.
Defined.

(** A [callMethod] expression in assignment form is a property set and
    nothing else: no method is called, no special name is dispatched (the
    reset and validate-all marks stay as they are, whatever name the
    expression parses to), and the pending return value names the property
    with the value as its only parameter. *)
Theorem assignment_takes_precedence (E : collaborators) (id name : string) (st : dstate)
        (a : action) (cmn m : string) (params : list value)
        (pn : string) (pv : value) (c' : component) (w' : world) (ev : list event) :
  action_type a = VStr "callMethod" ->
  dict_get (action_payload a) "name" (VStr "") = Ok (VStr cmn) ->
  cmn <> "" ->
  parse_call_method_name E cmn = Ok (m, params) ->
  contains_eq cmn = true ->
  parse_kwarg E cmn = Some (pn, pv) ->
  set_property_default E (st_component st) (st_world st) (VStr pn) pv = Ok (c', w', ev) ->
  apply_action E id name st a =
    Ok {| st_component := c'; st_data := st_data st;
          st_return := Some {| r_method_name := pn; r_params := [pv];
                               r_value := VDict ∅; r_redirect := VDict ∅;
                               r_poll := VDict ∅ |};
          st_reset := st_reset st; st_validate_all := st_validate_all st;
          st_world := w'; st_events := st_events st ++ ev |}.
Proof.
  intros Htype Hname Hne Hparse Heq Hkw Hset.
  rewrite (apply_action_call_method _ _ _ _ _ Htype). unfold apply_call_method.
  rewrite Hname. cbn [bind truthy].
  destruct (String.eqb_spec cmn "") as [->|_]; [done|]. cbn [negb].
  rewrite Hparse. cbn [bind]. rewrite Heq, Hkw.
  cbn [with_return st_component st_world]. rewrite Hset. reflexivity.
Qed.

Lemma assignment_takes_precedence_witness :
  exists st',
    apply_action assigning "7" "hello-world"
      {| st_component := fresh_view; st_data := VDict ∅; st_return := None;
         st_reset := false; st_validate_all := false;
         st_world := empty_world; st_events := [] |}
      (call_method "count=2") = Ok st' /\
    st_component st' !! "count" = Some (VInt 2) /\
    r_method_name <$> st_return st' = Some "count".
Proof.
  eexists. split.
  - refine (assignment_takes_precedence assigning "7" "hello-world" _
              (call_method "count=2") "count=2" "count=2" [] "count" (VInt 2)
              _ _ _ _ _ _ _ _ _ _);
      try discriminate; reflexivity.
  - split; vm_compute; reflexivity.
Defined.

(** The envelope of a pass holds a parent entry exactly when the
    component, as validated, has a parent. *)
Theorem parent_entry_iff_parent (E : collaborators) (id : string)
        (od : gmap string value) (st : dstate) (p : pass) :
  finish E id od st = Ok p ->
  exists parent,
    fst (post_validate E st od (frontend_context E (st_component st))) !! "parent"
      = Some parent /\
    (is_Some (p_envelope p !! "parent") <-> truthy parent = true).
Proof.
  unfold finish. intros H.
  destruct (post_validate E st od (frontend_context E (st_component st)))
    as [c validated].
  destruct (getattr c "errors") as [errors|]; [|discriminate H]. cbn [bind] in H.
  unfold parent_entry, getattr in H.
  destruct (c !! "parent") as [parent|] eqn:Hparent; [|discriminate H].
  cbn [bind] in H. exists parent. split; [exact Hparent|].
  destruct (truthy parent) eqn:Htruthy.
  - destruct parent; try discriminate H.
    destruct (a !! "component_id"); [|discriminate H]. cbn [bind] in H.
    destruct (a !! "errors"); [|discriminate H]. cbn [bind] in H.
    injection H as <-. cbn [p_envelope]. rewrite lookup_insert_eq. split; eauto.
  - cbn [bind] in H. injection H as <-. cbn [p_envelope].
    rewrite add_return_lookup_other by discriminate.
    rewrite !lookup_insert_ne by discriminate. rewrite lookup_empty.
    split; [intros [x Hx]; discriminate Hx | discriminate].
Qed.

Lemma parent_entry_iff_parent_witness :
  exists p x,
    finish bare "7" ∅
      {| st_component := child_view; st_data := VDict ∅; st_return := None;
         st_reset := false; st_validate_all := false;
         st_world := empty_world; st_events := [] |} = Ok p /\
    p_envelope p !! "parent" = Some x.
Proof.
  destruct (finish bare "7" ∅
      {| st_component := child_view; st_data := VDict ∅; st_return := None;
         st_reset := false; st_validate_all := false;
         st_world := empty_world; st_events := [] |}) as [p|e] eqn:Hp;
    [|vm_compute in Hp; discriminate Hp].
  destruct (parent_entry_iff_parent bare "7" ∅ _ p Hp) as (parent & Hparent & Hiff).
  vm_compute in Hparent. injection Hparent as <-.
  destruct Hiff as [_ Hiff]. destruct (Hiff eq_refl) as [x Hx].
  exists p, x. split; [reflexivity | exact Hx].
Defined.
